(** * baby_names_neural_net.ipynb: a character-level MLP language model

    A shallow embedding of the notebook's code cells: the vocabulary
    ([stoi] / [itos]), the example-building loop, [MLPLM.forward], [fit]
    and the name-sampling loop.  Python dictionaries are finite maps,
    Python exceptions are the [Raise] results of a small error monad, and
    tensors are a shape together with their contiguous storage. *)

From Stdlib Require Import ZArith Ascii String Lia.
From stdpp Require Import base tactics option list list_numbers sorting
  gmap strings.

Local Open Scope Z_scope.

(** ** Python exceptions and the error monad *)

Inductive exn : Type :=
  | KeyError
  | IndexError
  | ValueError
  | RuntimeError
  | ZeroDivisionError.

Inductive result (A : Type) : Type :=
  | Ok (a : A)
  | Raise (e : exn).

Arguments Ok {A} a.
Arguments Raise {A} e.

#[global] Instance result_ret : MRet result := fun _ a => Ok a.
#[global] Instance result_bind : MBind result := fun _ _ f m =>
  match m with
  | Ok a => f a
  | Raise e => Raise e
  end.

(** A Python [for] loop whose body may raise: the state is threaded through
    the elements in order and the first exception aborts the loop. *)
Fixpoint for_each {S A : Type} (body : S -> A -> result S) (s : S)
    (l : list A) : result S :=
  match l with
  | [] => Ok s
  | x :: l' => s' ← body s x; for_each body s' l'
  end.

(** A dictionary lookup [d[k]]: a missing key raises [KeyError]. *)
Definition getitem `{Countable K} {V : Type} (d : gmap K V) (k : K) : result V :=
  match d !! k with
  | Some v => Ok v
  | None => Raise KeyError
  end.

(** ** Vocabulary (cell 3: [chars], [stoi], [itos]) *)

Module Vocab.

(** The boundary symbol ['.'] and its reserved code. *)
Definition boundary : ascii := "."%char.

(** [''.join(words)] as the list of its characters. *)
Definition join (words : list string) : list ascii :=
  concat (list_ascii_of_string <$> words).

(** [set(''.join(words))]. *)
Definition char_set (words : list string) : gset ascii :=
  list_to_set (join words).

(** Python compares one-character strings by code point. *)
Definition char_le (a b : ascii) : Prop := (nat_of_ascii a <= nat_of_ascii b)%nat.
Definition char_lt (a b : ascii) : Prop := (nat_of_ascii a < nat_of_ascii b)%nat.

#[global] Instance char_le_dec a b : Decision (char_le a b).
Proof. unfold char_le. apply _. Defined.

(** [sorted(...)]. *)
Definition sorted (l : list ascii) : list ascii := merge_sort char_le l.

(** [enumerate(l, start)]. *)
Fixpoint enumerate {A : Type} (start : Z) (l : list A) : list (Z * A) :=
  match l with
  | [] => []
  | x :: l' => (start, x) :: enumerate (start + 1) l'
  end.

(** A dictionary comprehension [{k: v for ...}]: entries are inserted in
    iteration order, a later entry overwriting an earlier one. *)
Definition dict_of `{Countable K} {V : Type} (kvs : list (K * V)) : gmap K V :=
  foldl (fun d kv => <[kv.1 := kv.2]> d) ∅ kvs.

Record vocab : Type := Vocabulary {
  stoi : gmap ascii Z;
  itos : gmap Z ascii
}.

(** The two dictionaries, from the list [list(chars)] that iterating the
    character set yields.  The order of that list depends on the hash seed
    of the interpreter; [sorted] is applied right after. *)
Definition vocab_of_listing (listing : list ascii) : vocab :=
  let chars := sorted listing in
  let stoi0 := dict_of ((fun p => (p.2, p.1)) <$> enumerate 1 chars) in
  let itos0 := dict_of (enumerate 1 chars) in
  {| stoi := <[boundary := 0]> stoi0;
     itos := <[0 := boundary]> itos0 |}.

(** The sorted list [chars] of the cell. *)
Definition chars (words : list string) : list ascii :=
  sorted (elements (char_set words)).

Definition build (words : list string) : vocab :=
  vocab_of_listing (elements (char_set words)).

Definition encode (v : vocab) (c : ascii) : result Z := getitem (stoi v) c.
Definition decode (v : vocab) (i : Z) : result ascii := getitem (itos v) i.

(** The vocabulary size V: the number of entries of [itos]. *)
Definition size (v : vocab) : Z := Z.of_nat (base.size (itos v)).

(** A corpus in which no name contains the boundary symbol. *)
Definition boundary_free (words : list string) : Prop :=
  boundary ∉ join words.

(** What section 3 and section 8 of the specification promise of the
    vocabulary built from [words]: with [cs] the distinct corpus characters
    in sorted order, V is one more than their number, code 0 and the
    boundary symbol are paired, the [k]-th character (from 0) and code
    [k + 1] are paired, exactly the codes of [0, V-1] decode, every corpus
    character survives the round trip, and the dictionaries do not depend
    on the order in which the character set was iterated. *)
Definition contract (words : list string) : Prop :=
  let v := build words in
  exists cs : list ascii,
    StronglySorted char_lt cs /\
    (forall c, c ∈ cs <-> c ∈ join words) /\
    size v = Z.of_nat (length cs) + 1 /\
    encode v boundary = Ok 0 /\
    decode v 0 = Ok boundary /\
    (forall (k : nat) c, cs !! k = Some c ->
       encode v c = Ok (Z.of_nat k + 1) /\ decode v (Z.of_nat k + 1) = Ok c) /\
    (forall i, (exists c, decode v i = Ok c) <-> 0 <= i < size v) /\
    (forall c, c ∈ join words ->
       exists i, encode v c = Ok i /\ decode v i = Ok c) /\
    (forall listing, NoDup listing ->
       (forall c, c ∈ listing <-> c ∈ char_set words) ->
       vocab_of_listing listing = v).

End Vocab.

(** ** Example builder (cell 4: the loop filling [X] and [Y]) *)

Module Examples.

(** The accumulators [X] and [Y] together with the sliding context. *)
Record acc : Type := Acc {
  X : list (list Z);
  Y : list Z;
  ctx : list Z
}.

(** The body of [for char in word]. *)
Definition char_body (stoi : gmap ascii Z) (s : acc) (char : ascii) : result acc :=
  char_idx ← getitem stoi char;
  Ok {| X := X s ++ [ctx s];
        Y := Y s ++ [char_idx];
        ctx := drop 1 (ctx s) ++ [char_idx] |}.

(** The body of [for word in words]: [ctx = [0] * ctx_len], then
    [word = word + '.'], then the inner loop. *)
Definition word_body (stoi : gmap ascii Z) (ctx_len : Z)
    (s : list (list Z) * list Z) (word : string) : result (list (list Z) * list Z) :=
  let ctx0 := replicate (Z.to_nat ctx_len) 0 in
  let word := word +:+ "." in
  s' ← for_each (char_body stoi) {| X := s.1; Y := s.2; ctx := ctx0 |}
         (list_ascii_of_string word);
  Ok (X s', Y s').

(** The whole cell, up to the conversion to tensors: the lists [X], [Y]. *)
Definition build_examples (stoi : gmap ascii Z) (ctx_len : Z)
    (words : list string) : result (list (list Z) * list Z) :=
  for_each (word_body stoi ctx_len) ([], []) words.

(** The examples one name contributes: the body of the outer loop run on
    empty accumulators. *)
Definition name_examples (stoi : gmap ascii Z) (ctx_len : Z)
    (word : string) : result (list (list Z) * list Z) :=
  word_body stoi ctx_len ([], []) word.

(** The contexts a window starting as [ctx] passes through while the codes
    [codes] are shifted in one by one, and the context left at the end. *)
Fixpoint windows (ctx : list Z) (codes : list Z) : list (list Z) :=
  match codes with
  | [] => []
  | c :: codes' => ctx :: windows (drop 1 ctx ++ [c]) codes'
  end.

Fixpoint last_window (ctx : list Z) (codes : list Z) : list Z :=
  match codes with
  | [] => ctx
  | c :: codes' => last_window (drop 1 ctx ++ [c]) codes'
  end.

(** The codes of a framed name [word + '.'] under [stoi]: the codes of its
    characters, then 0. *)
Definition framed (stoi : gmap ascii Z) (word : string) (codes : list Z) : Prop :=
  exists body, codes = body ++ [0] /\ length body = String.length word /\
    Forall2 (fun ch i => stoi !! ch = Some i)
      (list_ascii_of_string (word +:+ ".")) codes.

(** The total character count T of a corpus. *)
Definition total_chars (words : list string) : nat :=
  sum_list (String.length <$> words).

End Examples.

(** ** Tensors: a shape and the contiguous storage it indexes *)

Record tensor (A : Type) : Type := Tensor {
  shape : list nat;
  data : list A
}.

Arguments Tensor {A} shape data.
Arguments shape {A} t.
Arguments data {A} t.

(** The number of elements a shape holds. *)
Definition numel (s : list nat) : nat := foldr Nat.mul 1%nat s.

(** [torch.tensor(rows)] for a list of integer lists.  The shape is read
    off the first row.  When that row is empty (or there is no row) the
    tensor has no entry and the other rows are not looked at; otherwise
    every row must have the length of the first, and a row of another
    length is refused. *)
Definition torch_tensor2 (rows : list (list Z)) : result (tensor Z) :=
  match rows with
  | [] => Ok (Tensor [0%nat] [])
  | [] :: _ => Ok (Tensor [length rows; 0%nat] [])
  | r :: _ =>
      if decide (Forall (fun r' => length r' = length r) rows)
      then Ok (Tensor [length rows; length r] (concat rows))
      else Raise ValueError
  end.

(** The element type [torch.tensor] gives that tensor: 64-bit integers
    when the first row holds an integer, and 32-bit floats, the default,
    when no entry is found.  [nn.Embedding] takes integer indices only. *)
Inductive dtype : Type :=
  | int64
  | float32.

Definition torch_dtype2 (rows : list (list Z)) : dtype :=
  match rows with
  | (_ :: _) :: _ => int64
  | _ => float32
  end.

(** [torch.tensor(l)] for a flat integer list. *)
Definition torch_tensor1 (l : list Z) : tensor Z := Tensor [length l] l.

(** [t.unsqueeze(0)]. *)
Definition unsqueeze0 {A : Type} (t : tensor A) : tensor A :=
  Tensor (1%nat :: shape t) (data t).

(** [x.size(0)]. *)
Definition size0 {A : Type} (x : tensor A) : result nat :=
  match shape x with
  | [] => Raise IndexError
  | n :: _ => Ok n
  end.

(** [x.view(n, -1)]: the storage is kept and the second dimension is
    inferred; it cannot be inferred when [n] is 0 or does not divide the
    number of elements. *)
Definition view_infer {A : Type} (x : tensor A) (n : nat) : result (tensor A) :=
  let total := length (data x) in
  if decide (n = 0%nat) then Raise RuntimeError
  else if decide ((total mod n)%nat = 0%nat)
       then Ok (Tensor [n; (total / n)%nat] (data x))
       else Raise RuntimeError.

(** The first [n] consecutive rows of width [k] of a storage. *)
Fixpoint chunk {A : Type} (k n : nat) (l : list A) : list (list A) :=
  match n with
  | O => []
  | S n' => take k l :: chunk k n' (drop k l)
  end.

(** ** The language model (cell 6: [class MLPLM]) *)

Module MLPLM.

Section Net.

(** The scalars of the parameters and activations, with the operations the
    layers use: [R0] is 0, [Rmax R0 x] is [max(0, x)]. *)
Context {R : Type} (R0 : R) (Radd Rmul Rmax : R -> R -> R).

(** [nn.Embedding(num_embeddings, embedding_dim)]: one row per code. *)
Record Embedding : Type := {
  emb_weight : list (list R);
  embedding_dim : nat
}.

(** [nn.Linear(in_features, out_features)]: [weight] has [out_features]
    rows of [in_features] entries. *)
Record Linear : Type := {
  weight : list (list R);
  bias : list R;
  in_features : nat;
  out_features : nat
}.

Inductive layer : Type :=
  | LinearLayer (l : Linear)
  | ReLU.

Record model : Type := {
  embedding : Embedding;
  fc : list layer
}.

(** The values the constructor draws for the parameters, by position. *)
Record initial_values : Type := {
  init_embedding : nat -> nat -> R;
  init_weight1 : nat -> nat -> R;
  init_bias1 : nat -> R;
  init_weight2 : nat -> nat -> R;
  init_bias2 : nat -> R
}.

Definition matrix (rows cols : nat) (f : nat -> nat -> R) : list (list R) :=
  (fun i => f i <$> seq 0 cols) <$> seq 0 rows.

Definition new_Linear (n_in n_out : nat) (w : nat -> nat -> R) (b : nat -> R) : Linear :=
  {| weight := matrix n_out n_in w;
     bias := b <$> seq 0 n_out;
     in_features := n_in;
     out_features := n_out |}.

(** The hidden width H: the literal 200 of the source. *)
Definition hidden_units : nat := 200.

(** [MLPLM.__init__(vocab_size, emb_dim, ctx_len)]. *)
Definition init (vocab_size emb_dim ctx_len : nat) (v : initial_values) : model :=
  {| embedding := {| emb_weight := matrix vocab_size emb_dim (init_embedding v);
                     embedding_dim := emb_dim |};
     fc := [ LinearLayer (new_Linear (emb_dim * ctx_len) hidden_units
                            (init_weight1 v) (init_bias1 v));
             ReLU;
             LinearLayer (new_Linear hidden_units vocab_size
                            (init_weight2 v) (init_bias2 v)) ] |}.

(** One row of the table; a code outside the table raises [IndexError]. *)
Definition embedding_row (e : Embedding) (i : Z) : result (list R) :=
  if decide (0 <= i < Z.of_nat (length (emb_weight e)))
  then match emb_weight e !! Z.to_nat i with
       | Some row => Ok row
       | None => Raise IndexError
       end
  else Raise IndexError.

(** [self.embedding(x)]: every index of [x] is replaced by its row, so the
    shape gains a last dimension [embedding_dim]. *)
Definition Embedding_forward (e : Embedding) (x : tensor Z) : result (tensor R) :=
  rows ← for_each (fun acc i => row ← embedding_row e i; Ok (acc ++ [row])) [] (data x);
  Ok (Tensor (shape x ++ [embedding_dim e]) (concat rows)).

Definition dot (w v : list R) : R := foldl Radd R0 (zip_with Rmul v w).

(** [F.linear(x, weight, bias)]: the last dimension must be [in_features];
    every row [v] of that width becomes [weight v + bias]. *)
Definition Linear_forward (l : Linear) (x : tensor R) : result (tensor R) :=
  match last (shape x) with
  | None => Raise RuntimeError
  | Some k =>
      if decide (k = in_features l) then
        let lead := take (length (shape x) - 1) (shape x) in
        let rows := chunk k (numel lead) (data x) in
        let out v := zip_with Radd ((fun w => dot w v) <$> weight l) (bias l) in
        Ok (Tensor (lead ++ [out_features l]) (concat (out <$> rows)))
      else Raise RuntimeError
  end.

(** [nn.ReLU()]: elementwise [max(0, x)]. *)
Definition ReLU_forward (x : tensor R) : tensor R :=
  Tensor (shape x) (Rmax R0 <$> data x).

Definition layer_forward (x : tensor R) (f : layer) : result (tensor R) :=
  match f with
  | LinearLayer l => Linear_forward l x
  | ReLU => Ok (ReLU_forward x)
  end.

(** [nn.Sequential]: the layers in order. *)
Definition Sequential_forward (layers : list layer) (x : tensor R) : result (tensor R) :=
  for_each layer_forward x layers.

(** [MLPLM.forward]. *)
Definition forward (m : model) (x : tensor Z) : result (tensor R) :=
  x ← Embedding_forward (embedding m) x;
  n ← size0 x;
  x ← view_infer x n;
  Sequential_forward (fc m) x.

(** A batch as [forward] receives it: the contexts, each of [C] codes,
    stored row after row. *)
Definition batch (C : nat) (contexts : list (list Z)) : tensor Z :=
  Tensor [length contexts; C] (concat contexts).

(** A linear transform plus bias: entry [j] is row [j] of [W] times [v],
    plus [b_j]. *)
Definition linear_plus_bias (W : list (list R)) (b : list R) (v : list R) : list R :=
  zip_with Radd ((fun row => dot row v) <$> W) b.

(** The vector of code [c] in the table [E]. *)
Definition row_of (E : list (list R)) (c : Z) : list R :=
  default [] (E !! Z.to_nat c).

(** The computation as section 4.3 of the specification words it, for one
    context: look up each code, concatenate in order, linear transform plus
    bias, [max(0, x)] elementwise, second linear transform plus bias. *)
Definition spec_logits (E W1 : list (list R)) (b1 : list R) (W2 : list (list R))
    (b2 : list R) (context : list Z) : list R :=
  let vectors := row_of E <$> context in
  let concatenated := concat vectors in
  let hidden := linear_plus_bias W1 b1 concatenated in
  let activated := Rmax R0 <$> hidden in
  linear_plus_bias W2 b2 activated.

(** The same computation on the parameters of the model that
    [init vocab_size emb_dim ctx_len v] builds. *)
Definition logits_of (vocab_size emb_dim ctx_len : nat) (v : initial_values)
    (context : list Z) : list R :=
  spec_logits
    (matrix vocab_size emb_dim (init_embedding v))
    (matrix hidden_units (emb_dim * ctx_len) (init_weight1 v))
    (init_bias1 v <$> seq 0 hidden_units)
    (matrix vocab_size hidden_units (init_weight2 v))
    (init_bias2 v <$> seq 0 vocab_size)
    context.

End Net.

End MLPLM.

(** ** The trainer (cell 7: [fit]) *)

Module Trainer.

Section Fit.

(** The parameters, their gradients, the optimizer's moment estimates, the
    tensors and the loss value are opaque here; [model], [loss_fn],
    [gradient] (what autograd computes for the loss of the current
    parameters), [accumulate] (the [+=] of [backward] into [.grad]) and
    [update] (one Adam step) are the operations [fit] calls. *)
Context {params grads moments Xt Yt logits loss_t : Type}.
Context (model : params -> Xt -> result logits)
        (loss_fn : logits -> Yt -> loss_t)
        (gradient : params -> Xt -> Yt -> grads)
        (accumulate : grads -> grads -> grads)
        (update : moments -> params -> grads -> moments * params).

(** What [fit] mutates: the model's parameters, their [.grad] buffer
    ([None] after [zero_grad]) and the optimizer's state. *)
Record train_state : Type := {
  parameters : params;
  grad : option grads;
  optim : moments
}.

(** [optimizer.zero_grad()]. *)
Definition zero_grad (s : train_state) : train_state :=
  {| parameters := parameters s; grad := None; optim := optim s |}.

(** [loss.backward()]: the gradient is added to what [.grad] holds. *)
Definition backward (X : Xt) (Y : Yt) (s : train_state) : train_state :=
  let g := gradient (parameters s) X Y in
  {| parameters := parameters s;
     grad := Some (match grad s with
                   | None => g
                   | Some g0 => accumulate g0 g
                   end);
     optim := optim s |}.

(** [optimizer.step()]: parameters without a gradient are left alone. *)
Definition step (s : train_state) : train_state :=
  match grad s with
  | None => s
  | Some g =>
      let r := update (optim s) (parameters s) g in
      {| parameters := r.2; grad := grad s; optim := r.1 |}
  end.

(** Python's [a % b] on integers. *)
Definition py_mod (a b : Z) : result Z :=
  if decide (b = 0) then Raise ZeroDivisionError else Ok (a mod b).

(** The local state of a call: the mutated objects, [history["train_loss"]]
    and the lines printed, as (epoch, loss) pairs. *)
Record fit_state : Type := {
  objects : train_state;
  train_loss : list loss_t;
  printed : list (Z * loss_t)
}.

(** The body of [for epoch in range(epochs)]. *)
Definition epoch_body (X : Xt) (Y : Yt) (epochs : Z) (s : fit_state)
    (epoch : Z) : result fit_state :=
  out ← model (parameters (objects s)) X;
  let loss := loss_fn out Y in
  let o := zero_grad (objects s) in
  let o := backward X Y o in
  let o := step o in
  let history := train_loss s ++ [loss] in
  r ← py_mod epoch (epochs / 10);
  let lines := if decide (r = 0 \/ epoch = epochs - 1)
               then printed s ++ [(epoch, loss)]
               else printed s in
  Ok {| objects := o; train_loss := history; printed := lines |}.

(** [fit(model, X, Y, optimizer, loss_fn, epochs)]. *)
Definition fit (s : train_state) (X : Xt) (Y : Yt) (epochs : Z) : result fit_state :=
  for_each (epoch_body X Y epochs)
    {| objects := s; train_loss := []; printed := [] |} (seqZ 0 epochs).

(** One full-batch update as section 4.4 of the specification words it:
    the loss of the current parameters on the whole example set, and the
    parameters moved by the gradient of that loss alone. *)
Definition spec_epoch (X : Xt) (Y : Yt) (pm : params * moments) : params * moments :=
  let r := update pm.2 pm.1 (gradient pm.1 X Y) in (r.2, r.1).

Fixpoint spec_run (X : Xt) (Y : Yt) (n : nat) (pm : params * moments) : params * moments :=
  match n with
  | O => pm
  | S n' => spec_epoch X Y (spec_run X Y n' pm)
  end.

End Fit.

End Trainer.

(** ** The sampler (cell 9: the name-generating loop) *)

Module Sampler.

(** How a loop stands after a bounded number of iterations. *)
Inductive outcome (S A : Type) : Type :=
  | Finished (a : A)
  | Failed (e : exn)
  | Running (s : S).

Arguments Finished {S A} a.
Arguments Failed {S A} e.
Arguments Running {S A} s.

Definition halted {S A : Type} (o : outcome S A) : Prop :=
  match o with
  | Running _ => False
  | _ => True
  end.

Section Loop.

(** [model] is the trained network, [softmax] is [torch.softmax(_, dim=1)],
    and [multinomial probas g] is [torch.multinomial(probas, 1).item()]
    drawing from the generator state [g].  Both stand for calls that
    return: a draw that is refused (probabilities that are not finite) ends
    the run before the state changes, so the states and outcomes below are
    those of the iterations whose draw returns. *)
Context {R G : Type}.
Context (model : tensor Z -> result (tensor R))
        (softmax : tensor R -> tensor R)
        (multinomial : tensor R -> G -> Z * G)
        (itos : gmap Z ascii).

Record state : Type := {
  ctx : list Z;
  gen_name : string;
  rng : G
}.

Inductive control : Type :=
  | Continue (s : state)
  | Break (s : state).

(** The code drawn in the iteration that starts in state [s]. *)
Definition sampled (s : state) : result Z :=
  out ← model (unsqueeze0 (torch_tensor1 (ctx s)));
  Ok (multinomial (softmax out) (rng s)).1.

(** The body of [while True]. *)
Definition loop_body (s : state) : result control :=
  let ctx_tensor := unsqueeze0 (torch_tensor1 (ctx s)) in
  out ← model ctx_tensor;
  let probas := softmax out in
  let d := multinomial probas (rng s) in
  char ← getitem itos d.1;
  let s' := {| ctx := drop 1 (ctx s) ++ [d.1];
               gen_name := gen_name s +:+ String char EmptyString;
               rng := d.2 |} in
  Ok (if decide (char = Vocab.boundary) then Break s' else Continue s').

(** [while True: ...], observed for at most [fuel] iterations. *)
Fixpoint while_true (fuel : nat) (s : state) : outcome state state :=
  match fuel with
  | O => Running s
  | S fuel' =>
      match loop_body s with
      | Raise e => Failed e
      | Ok (Break s') => Finished s'
      | Ok (Continue s') => while_true fuel' s'
      end
  end.

(** One pass of the outer loop up to [print(gen_name)]. *)
Definition generate (fuel : nat) (g : G) : outcome state state :=
  while_true fuel {| ctx := [0; 0; 0]; gen_name := EmptyString; rng := g |}.

(** [for i in range(num_names)]: the names printed, in order. *)
Fixpoint generate_names (fuel : nat) (num_names : nat) (g : G)
    (lines : list string) : outcome state (list string * G) :=
  match num_names with
  | O => Finished (lines, g)
  | S n =>
      match generate fuel g with
      | Finished s => generate_names fuel n (rng s) (lines ++ [gen_name s])
      | Failed e => Failed e
      | Running s => Running s
      end
  end.

End Loop.

(** A name as the loop leaves it when it ends: characters other than the
    boundary symbol, then the boundary symbol. *)
Definition boundary_terminated (name : string) : Prop :=
  exists body : string,
    name = body +:+ "." /\ Vocab.boundary ∉ list_ascii_of_string body.

End Sampler.

(** ** Concrete inputs used in the examples below *)

Module Inputs.

(** The corpus of the specification's loss-trend example. *)
Definition corpus3 : list string := ["ab"; "ba"; "aab"].

(** Parameter values for a model over integer scalars. *)
Definition int_values : @MLPLM.initial_values Z :=
  {| MLPLM.init_embedding := fun i j => Z.of_nat i + Z.of_nat j;
     MLPLM.init_weight1 := fun i j => Z.of_nat i - Z.of_nat j;
     MLPLM.init_bias1 := fun i => Z.of_nat i;
     MLPLM.init_weight2 := fun i j => Z.of_nat j - Z.of_nat i;
     MLPLM.init_bias2 := fun i => 1 |}.

(** A one-parameter regression trained by plain descent: the parameter is
    an integer [p], the model computes [p * X], the loss is the squared
    error, a step moves [p] by a quarter of the gradient, and the optimizer
    state counts the steps taken.  The start has a stale gradient in
    [.grad]. *)
Definition toy_model (p X : Z) : result Z := Ok (p * X).
Definition toy_loss (out Y : Z) : Z := (out - Y) * (out - Y).
Definition toy_gradient (p X Y : Z) : Z := 2 * (p * X - Y) * X.
Definition toy_update (m p g : Z) : Z * Z := (m + 1, p - g / 4).
Definition toy_start : @Trainer.train_state Z Z Z :=
  {| Trainer.parameters := 16; Trainer.grad := Some 7; Trainer.optim := 0 |}.

(** Samplers whose generator state is the list of codes still to be drawn
    (code 1 once the list is used up), over a model that accepts every
    context. *)
Definition any_model (x : tensor Z) : result (tensor Z) := Ok (Tensor [1%nat; 3%nat] [0; 0; 0]).
Definition no_softmax (x : tensor Z) : tensor Z := x.
Definition scripted (probas : tensor Z) (g : list Z) : Z * list Z :=
  match g with
  | [] => (1, [])
  | c :: g' => (c, g')
  end.

(** A sampler that draws code 1 whatever the probabilities are. *)
Definition always_one (probas : tensor Z) (g : unit) : Z * unit := (1, g).

End Inputs.

(** ** Further definitions *)

Module More.

(** The name of the Python class of each exception. *)
Definition exn_name (e : exn) : string :=
  match e with
  | KeyError => "KeyError"
  | IndexError => "IndexError"
  | ValueError => "ValueError"
  | RuntimeError => "RuntimeError"
  | ZeroDivisionError => "ZeroDivisionError"
  end.

(** A trainer around the network over integer scalars whose loss is the
    first logit and whose optimizer leaves the parameters alone. *)
Definition toy_loss_of (out : tensor Z) (Y : list Z) : Z := default 0 (head (data out)).
Definition toy_no_gradient (p : @MLPLM.model Z) (X : tensor Z) (Y : list Z) : unit := tt.
Definition toy_accumulate (g0 g : unit) : unit := tt.
Definition toy_keep (m : unit) (p : @MLPLM.model Z) (g : unit) : unit * @MLPLM.model Z :=
  (m, p).


(** Every character of every name, and the boundary symbol appended to it,
    is a key of [stoi]. *)
Definition all_keys (stoi : gmap ascii Z) (words : list string) : Prop :=
  Forall (fun w => Forall (fun c => is_Some (stoi !! c))
                     (list_ascii_of_string (w +:+ "."))) words.

(** The test of [fit] that decides whether an epoch is reported. *)
Definition reported (epochs k : Z) : Prop := k mod (epochs / 10) = 0 \/ k = epochs - 1.

#[global] Instance reported_dec epochs k : Decision (reported epochs k).
Proof. unfold reported. apply _. Defined.

End More.

(** ** Reading the corpus (cell 2: [f.read().splitlines()]) *)

Module Corpus.

Definition LF : ascii := ascii_of_nat 10.
Definition CR : ascii := ascii_of_nat 13.

(** The characters [str.splitlines] treats as line boundaries, among the
    code points below 256: LF, VT, FF, CR, FS, GS, RS and NEL. *)
Definition is_line_boundary (c : ascii) : bool :=
  bool_decide (nat_of_ascii c ∈ [10; 11; 12; 13; 28; 29; 30; 133]%nat).

(** [text.splitlines()], with [cur] the line read so far: a boundary ends
    the line, CR followed by LF counting as one boundary, and what follows
    the last boundary is a line only if it is not empty. *)
Fixpoint splitlines_from (cur : string) (text : string) : list string :=
  match text with
  | EmptyString =>
      match cur with
      | EmptyString => []
      | _ => [cur]
      end
  | String c rest =>
      if is_line_boundary c then
        cur :: match rest with
               | String c' rest' =>
                   if decide (c = CR /\ c' = LF)
                   then splitlines_from EmptyString rest'
                   else splitlines_from EmptyString rest
               | EmptyString => splitlines_from EmptyString rest
               end
      else splitlines_from (cur +:+ String c EmptyString) rest
  end.

Definition splitlines (text : string) : list string :=
  splitlines_from EmptyString text.

(** A string without line boundaries. *)
Definition one_line (s : string) : Prop :=
  Forall (fun c => is_line_boundary c = false) (list_ascii_of_string s).

(** A file in which every name is followed by a line feed. *)
Fixpoint file_of (names : list string) : string :=
  match names with
  | [] => EmptyString
  | name :: names' => name +:+ String LF (file_of names')
  end.

End Corpus.

(** * Properties *)

(** ** The error monad and loops *)

Lemma for_each_app {S A : Type} (body : S -> A -> result S) (l1 l2 : list A) (s : S) :
  for_each body s (l1 ++ l2) = (s' ← for_each body s l1; for_each body s' l2).
Proof.
  revert s. induction l1 as [|x l1 IH]; intros s; simpl; [done|].
  destruct (body s x) as [s'|e]; simpl; [apply IH | done].
Qed.

Lemma getitem_Ok `{Countable K} {V : Type} (d : gmap K V) (k : K) (v : V) :
  getitem d k = Ok v <-> d !! k = Some v.
Proof. unfold getitem. destruct (d !! k); split; congruence. Qed.

Lemma getitem_KeyError `{Countable K} {V : Type} (d : gmap K V) (k : K) :
  getitem d k = Raise KeyError <-> d !! k = None.
Proof. unfold getitem. destruct (d !! k); split; congruence. Qed.

(** ** Vocabulary *)

Module VocabFacts.
Import Vocab.

Lemma nat_of_ascii_inj (a b : ascii) : nat_of_ascii a = nat_of_ascii b -> a = b.
Proof.
  intros E. rewrite <- (ascii_nat_embedding a), <- (ascii_nat_embedding b).
  by rewrite E.
Qed.

#[global] Instance char_le_total : Total char_le.
Proof. intros a b. unfold char_le. lia. Qed.

#[global] Instance char_le_trans : Transitive char_le.
Proof. intros a b c. unfold char_le. lia. Qed.

#[global] Instance char_le_antisymm : AntiSymm (=) char_le.
Proof. intros a b. unfold char_le. intros. apply nat_of_ascii_inj. lia. Qed.

Lemma sorted_perm (l : list ascii) : sorted l ≡ₚ l.
Proof. apply merge_sort_Permutation. Qed.

Lemma sorted_StronglySorted (l : list ascii) : StronglySorted char_le (sorted l).
Proof. apply StronglySorted_merge_sort; apply _. Qed.

(** Sorting forgets the order in which the set was iterated. *)
Lemma sorted_listing_unique (l1 l2 : list ascii) :
  l1 ≡ₚ l2 -> sorted l1 = sorted l2.
Proof.
  intros P. apply (StronglySorted_unique char_le); try apply sorted_StronglySorted.
  by rewrite !sorted_perm.
Qed.

Lemma StronglySorted_le_lt (l : list ascii) :
  NoDup l -> StronglySorted char_le l -> StronglySorted char_lt l.
Proof.
  induction 2 as [|x l Hs IH Hall]; [constructor|].
  apply NoDup_cons in H as [Hx Hnd].
  constructor; [by apply IH|].
  rewrite Forall_forall in Hall |- *. intros y Hy.
  specialize (Hall y Hy). unfold char_le, char_lt in *.
  destruct (decide (nat_of_ascii x = nat_of_ascii y)) as [E|]; [|lia].
  apply nat_of_ascii_inj in E. by subst.
Qed.

Lemma elem_of_chars (words : list string) (c : ascii) :
  c ∈ chars words <-> c ∈ join words.
Proof.
  unfold chars. rewrite sorted_perm, elem_of_elements.
  unfold char_set. by rewrite elem_of_list_to_set.
Qed.

Lemma NoDup_chars (words : list string) : NoDup (chars words).
Proof. unfold chars. rewrite sorted_perm. apply NoDup_elements. Qed.

Lemma chars_strictly_sorted (words : list string) :
  StronglySorted char_lt (chars words).
Proof.
  apply StronglySorted_le_lt; [apply NoDup_chars | apply sorted_StronglySorted].
Qed.

Lemma enumerate_snoc {A : Type} (l : list A) (x : A) (s : Z) :
  enumerate s (l ++ [x]) = enumerate s l ++ [(s + Z.of_nat (length l), x)].
Proof.
  revert s. induction l as [|y l IH]; intros s; simpl.
  - by rewrite Z.add_0_r.
  - rewrite IH.
    by replace (s + 1 + Z.of_nat (length l)) with (s + Z.of_nat (S (length l))) by lia.
Qed.

(** [{idx: char for idx, char in enumerate(l, start)}] *)
Lemma dict_of_enumerate_lookup {A : Type} (l : list A) (s i : Z) :
  dict_of (enumerate s l) !! i =
  if decide (s <= i < s + Z.of_nat (length l)) then l !! Z.to_nat (i - s) else None.
Proof.
  induction l as [|x l IH] using rev_ind.
  - simpl. case_decide; [lia | done].
  - rewrite enumerate_snoc. unfold dict_of in *. rewrite foldl_snoc. simpl.
    rewrite length_app. simpl.
    destruct (decide (i = s + Z.of_nat (length l))) as [->|Hne].
    + rewrite lookup_insert_eq. rewrite decide_True by lia.
      replace (Z.to_nat (s + Z.of_nat (length l) - s)) with (length l) by lia.
      by rewrite list_lookup_middle.
    + rewrite lookup_insert_ne by done. rewrite IH.
      repeat case_decide; try lia; try done.
      rewrite lookup_app_l by lia. done.
Qed.

Lemma dict_of_enumerate_size {A : Type} (l : list A) (s : Z) :
  base.size (dict_of (enumerate s l)) = length l.
Proof.
  induction l as [|x l IH] using rev_ind; [done|].
  rewrite enumerate_snoc, length_app. simpl.
  pose proof (dict_of_enumerate_lookup l s (s + Z.of_nat (length l))) as Hl.
  rewrite decide_False in Hl by lia.
  unfold dict_of in *. rewrite foldl_snoc. simpl.
  rewrite map_size_insert_None by done. lia.
Qed.

(** [{char: idx for idx, char in enumerate(l, start)}] *)
Lemma dict_of_swap_lookup_None (l : list ascii) (s : Z) (c : ascii) :
  c ∉ l -> dict_of ((fun p => (p.2, p.1)) <$> enumerate s l) !! c = None.
Proof.
  induction l as [|x l IH] using rev_ind; intros Hc; [done|].
  rewrite enumerate_snoc, fmap_app. unfold dict_of in *. simpl.
  rewrite foldl_snoc. simpl. rewrite not_elem_of_app in Hc. destruct Hc as [Hc Hx].
  rewrite lookup_insert_ne; [by apply IH|].
  intros ->. apply Hx. by left.
Qed.

Lemma dict_of_swap_lookup (l : list ascii) (s : Z) (k : nat) (c : ascii) :
  NoDup l -> l !! k = Some c ->
  dict_of ((fun p => (p.2, p.1)) <$> enumerate s l) !! c = Some (s + Z.of_nat k).
Proof.
  induction l as [|x l IH] using rev_ind; intros Hnd Hk; [done|].
  rewrite enumerate_snoc, fmap_app. unfold dict_of in *. simpl.
  rewrite foldl_snoc. simpl.
  apply NoDup_app in Hnd as (Hnd & Hdisj & _).
  apply lookup_snoc_Some in Hk as [[Hlt Hk]|[-> ->]].
  - rewrite lookup_insert_ne; [by apply IH|].
    intros ->. apply (Hdisj c); [by eapply list_elem_of_lookup_2 | by left].
  - by rewrite lookup_insert_eq.
Qed.

End VocabFacts.

Module VocabTheorems.
Import Vocab VocabFacts Inputs.

Lemma itos_lookup (words : list string) (i : Z) :
  itos (build words) !! i =
  if decide (i = 0) then Some boundary
  else if decide (1 <= i < 1 + Z.of_nat (length (chars words)))
       then chars words !! Z.to_nat (i - 1) else None.
Proof.
  unfold build, vocab_of_listing. simpl. fold (chars words).
  case_decide as H0; [subst; by rewrite lookup_insert_eq|].
  rewrite lookup_insert_ne by done. apply dict_of_enumerate_lookup.
Qed.

Lemma stoi_lookup_boundary (words : list string) :
  stoi (build words) !! boundary = Some 0.
Proof. unfold build, vocab_of_listing. simpl. by rewrite lookup_insert_eq. Qed.

Lemma stoi_lookup_char (words : list string) (k : nat) (c : ascii) :
  c <> boundary -> chars words !! k = Some c ->
  stoi (build words) !! c = Some (1 + Z.of_nat k).
Proof.
  intros Hc Hk. unfold build, vocab_of_listing. simpl. fold (chars words).
  rewrite lookup_insert_ne by done.
  apply dict_of_swap_lookup; [apply NoDup_chars | done].
Qed.

Lemma stoi_lookup_None (words : list string) (c : ascii) :
  c <> boundary -> c ∉ join words -> stoi (build words) !! c = None.
Proof.
  intros Hc Hn. unfold build, vocab_of_listing. simpl. fold (chars words).
  rewrite lookup_insert_ne by done.
  apply dict_of_swap_lookup_None. by rewrite elem_of_chars.
Qed.

Lemma size_build (words : list string) :
  size (build words) = Z.of_nat (length (chars words)) + 1.
Proof.
  unfold size, build, vocab_of_listing. simpl. fold (chars words).
  rewrite map_size_insert_None.
  - rewrite dict_of_enumerate_size. lia.
  - rewrite dict_of_enumerate_lookup. by rewrite decide_False by lia.
Qed.

(** Every code stored in [stoi] lies in [0, V-1]. *)
Lemma stoi_range (words : list string) (c : ascii) (i : Z) :
  stoi (build words) !! c = Some i -> 0 <= i < size (build words).
Proof.
  rewrite size_build. intros Hi.
  destruct (decide (c = boundary)) as [->|Hc].
  - rewrite stoi_lookup_boundary in Hi. simplify_eq. lia.
  - destruct (decide (c ∈ join words)) as [Hin|Hout].
    + apply elem_of_chars, list_elem_of_lookup in Hin as [k Hk].
      rewrite (stoi_lookup_char _ k) in Hi by done. simplify_eq.
      apply lookup_lt_Some in Hk. lia.
    + by rewrite stoi_lookup_None in Hi.
Qed.

(** Every character of the corpus, and the boundary symbol, has a code. *)
Lemma stoi_total (words : list string) (c : ascii) :
  c = boundary \/ c ∈ join words -> exists i, stoi (build words) !! c = Some i.
Proof.
  intros H. destruct (decide (c = boundary)) as [->|Hc].
  - eexists. apply stoi_lookup_boundary.
  - destruct H as [?|Hin]; [done|].
    apply elem_of_chars, list_elem_of_lookup in Hin as [k Hk].
    eexists. by apply stoi_lookup_char.
Qed.

Lemma decode_defined_iff (words : list string) (i : Z) :
  (exists c, decode (build words) i = Ok c) <-> 0 <= i < size (build words).
Proof.
  rewrite size_build. unfold decode. setoid_rewrite getitem_Ok.
  rewrite itos_lookup. split.
  - intros [c Hc]. repeat case_decide; try done; lia.
  - intros Hi. case_decide; [eauto|]. rewrite decide_True by lia.
    apply lookup_lt_is_Some_2. lia.
Qed.

Lemma vocab_of_listing_deterministic (words : list string) (listing : list ascii) :
  NoDup listing -> (forall c, c ∈ listing <-> c ∈ char_set words) ->
  vocab_of_listing listing = build words.
Proof.
  intros Hnd Hel. unfold build, vocab_of_listing.
  rewrite (sorted_listing_unique listing (elements (char_set words))); [done|].
  apply NoDup_Permutation; [done | apply NoDup_elements |].
  intros c. by rewrite Hel, elem_of_elements.
Qed.

(** C5: for every corpus the specification admits (section 6: names hold
    no embedded boundary symbol), non-empty or not, the vocabulary pairs
    code 0 with the boundary symbol and codes 1..V-1 with the distinct
    corpus characters in sorted order, exactly the codes of [0, V-1] decode,
    the dictionaries are the same whatever order the character set is
    iterated in, decode (encode c) = c for every corpus character c, and
    decode 0 is the boundary symbol. *)
Theorem vocabulary_contract_boundary_free (words : list string) :
  boundary_free words -> contract words.
Proof.
  intros Hbf. exists (chars words).
  split; [apply chars_strictly_sorted|].
  split; [apply elem_of_chars|].
  split; [apply size_build|].
  assert (Hpair : forall (k : nat) c, chars words !! k = Some c ->
            encode (build words) c = Ok (Z.of_nat k + 1) /\
            decode (build words) (Z.of_nat k + 1) = Ok c).
  { intros k c Hk. unfold encode, decode. rewrite !getitem_Ok. split.
    - rewrite (stoi_lookup_char words k c); [f_equal; lia | | done].
      intros ->. apply Hbf, elem_of_chars. by eapply list_elem_of_lookup_2.
    - rewrite itos_lookup. rewrite decide_False by lia.
      apply lookup_lt_Some in Hk as Hlt. rewrite decide_True by lia.
      by replace (Z.to_nat (Z.of_nat k + 1 - 1)) with k by lia. }
  split; [unfold encode; apply getitem_Ok, stoi_lookup_boundary|].
  split; [unfold decode; apply getitem_Ok; by rewrite itos_lookup|].
  split; [done|].
  split; [apply decode_defined_iff|].
  split; [|apply vocab_of_listing_deterministic].
  intros c Hc. apply elem_of_chars, list_elem_of_lookup in Hc as [k Hk].
  exists (Z.of_nat k + 1). by apply Hpair.
Qed.

Lemma vocabulary_contract_boundary_free_witness :
  boundary_free corpus3 /\ contract corpus3.
Proof.
  assert (H : boundary_free corpus3).
  { unfold boundary_free. apply (bool_decide_unpack _). by vm_compute. }
  split; [exact H | exact (vocabulary_contract_boundary_free corpus3 H)].
Defined.

(** C8 (as amended): decoding a code outside [0, V-1], in particular V and
    -1, fails with KeyError, the exception of the dictionary lookup
    [itos[code]]. *)
Theorem decode_outside_range_raises (words : list string) (code : Z) :
  code < 0 \/ size (build words) <= code ->
  decode (build words) code = Raise KeyError.
Proof.
  intros Hout. unfold decode. apply getitem_KeyError.
  destruct (itos (build words) !! code) as [c|] eqn:E; [|done].
  assert (0 <= code < size (build words)); [|lia].
  apply decode_defined_iff. exists c. unfold decode. by apply getitem_Ok.
Qed.

Lemma decode_outside_range_raises_witness :
  decode (build corpus3) (size (build corpus3)) = Raise KeyError /\
  decode (build corpus3) (-1) = Raise KeyError.
Proof.
  split.
  - apply (decode_outside_range_raises corpus3). right. lia.
  - apply (decode_outside_range_raises corpus3). left. lia.
Defined.

(** C8 (as stated) fails: over the vocabulary of "ab", "ba", "aab", of
    size 3, decoding 3 and decoding -1 raise the exception whose class is
    named KeyError, and no exception the notebook can raise is named
    InvalidCodeError. *)
Lemma decode_error_is_KeyError :
  size (build corpus3) = 3 /\
  (exists e, decode (build corpus3) 3 = Raise e /\
             decode (build corpus3) (-1) = Raise e /\
             More.exn_name e = "KeyError" /\
             More.exn_name e <> "InvalidCodeError") /\
  ~ exists e, More.exn_name e = "InvalidCodeError".
Proof.
  split; [by vm_compute|]. split.
  - exists KeyError. split; [by vm_compute|]. split; [by vm_compute|]. by split.
  - intros [e He]. by destruct e.
Qed.

End VocabTheorems.

(** ** Example builder *)

Module ExamplesFacts.
Import Vocab VocabFacts VocabTheorems Examples.

Lemma elem_of_concat_2 {A : Type} (x : A) (l : list A) (ls : list (list A)) :
  x ∈ l -> l ∈ ls -> x ∈ concat ls.
Proof.
  intros Hx Hl. induction Hl as [l ls|l l' ls Hl IH]; simpl;
    apply elem_of_app; [by left | right; by apply IH].
Qed.

Lemma list_ascii_of_string_app (a b : string) :
  list_ascii_of_string (a +:+ b) = list_ascii_of_string a ++ list_ascii_of_string b.
Proof.
  induction a as [|c a IH]; [done|].
  change (String c a +:+ b) with (String c (a +:+ b)). simpl. by rewrite IH.
Qed.

Lemma length_list_ascii_of_string (a : string) :
  length (list_ascii_of_string a) = String.length a.
Proof. induction a as [|c a IH]; simpl; [done | by rewrite IH]. Qed.

Lemma length_windows (c : list Z) (codes : list Z) :
  length (windows c codes) = length codes.
Proof. revert c. induction codes as [|t codes IH]; intros c; simpl; [done | by rewrite IH]. Qed.

Lemma windows_head (c : list Z) (t : Z) (codes : list Z) :
  windows c (t :: codes) !! 0%nat = Some c.
Proof. done. Qed.

(** Consecutive windows: the later one is the earlier one without its first
    entry, followed by the code that was shifted in. *)
Lemma windows_slide (c : list Z) (codes : list Z) (i : nat) (a b : list Z) (t : Z) :
  windows c codes !! i = Some a -> codes !! i = Some t ->
  windows c codes !! S i = Some b -> b = drop 1 a ++ [t].
Proof.
  revert c i. induction codes as [|t0 codes IH]; intros c i Ha Ht Hb; [done|].
  destruct i as [|i]; simpl in *.
  - simplify_eq. destruct codes as [|t1 codes]; simpl in *; by simplify_eq.
  - by eapply IH.
Qed.

Lemma windows_length_each (c : list Z) (codes : list Z) :
  (1 <= length c)%nat -> Forall (fun w => length w = length c) (windows c codes).
Proof.
  revert c. induction codes as [|t codes IH]; intros c Hc; simpl; [constructor|].
  constructor; [done|].
  assert (E : length (drop 1 c ++ [t]) = length c).
  { rewrite length_app, length_drop. simpl. lia. }
  rewrite <- E. apply IH. lia.
Qed.

Lemma windows_Forall (P : Z -> Prop) (c : list Z) (codes : list Z) :
  Forall P c -> Forall P codes -> Forall (Forall P) (windows c codes).
Proof.
  revert c. induction codes as [|t codes IH]; intros c Hc Hcodes; simpl; [constructor|].
  apply Forall_cons in Hcodes as [Ht Hcodes].
  constructor; [done|]. apply IH; [|done].
  apply Forall_app. split; [by apply Forall_drop | by constructor].
Qed.

Lemma char_body_Ok (stoi : gmap ascii Z) (s : acc) (ch : ascii) (i : Z) :
  stoi !! ch = Some i ->
  char_body stoi s ch =
  Ok {| X := X s ++ [ctx s]; Y := Y s ++ [i]; ctx := drop 1 (ctx s) ++ [i] |}.
Proof. intros Hi. unfold char_body. apply getitem_Ok in Hi. by rewrite Hi. Qed.

(** The inner loop in closed form. *)
Lemma char_loop (stoi : gmap ascii Z) (cs : list ascii) (codes : list Z) (s : acc) :
  Forall2 (fun ch i => stoi !! ch = Some i) cs codes ->
  for_each (char_body stoi) s cs =
  Ok {| X := X s ++ windows (ctx s) codes;
        Y := Y s ++ codes;
        ctx := last_window (ctx s) codes |}.
Proof.
  intros HF. revert s. induction HF as [|ch i cs codes Hi HF IH]; intros s.
  - simpl. rewrite !app_nil_r. by destruct s.
  - cbn [for_each]. rewrite (char_body_Ok _ _ _ _ Hi). cbn [mbind result_bind].
    rewrite IH. simpl. by rewrite <- !app_assoc.
Qed.

Lemma word_body_framed (stoi : gmap ascii Z) (ctx_len : Z) (word : string)
    (codes : list Z) (XY : list (list Z) * list Z) :
  framed stoi word codes ->
  word_body stoi ctx_len XY word =
  Ok (XY.1 ++ windows (replicate (Z.to_nat ctx_len) 0) codes, XY.2 ++ codes).
Proof.
  intros (body & -> & _ & HF). unfold word_body.
  by rewrite (char_loop _ _ _ _ HF).
Qed.

Lemma build_loop (stoi : gmap ascii Z) (ctx_len : Z) (words : list string)
    (codess : list (list Z)) (XY : list (list Z) * list Z) :
  Forall2 (framed stoi) words codess ->
  for_each (word_body stoi ctx_len) XY words =
  Ok (XY.1 ++ concat (windows (replicate (Z.to_nat ctx_len) 0) <$> codess),
      XY.2 ++ concat codess).
Proof.
  intros HF. revert XY. induction HF as [|w codes words codess Hw HF IH]; intros XY; simpl.
  - rewrite !app_nil_r. by destruct XY.
  - rewrite (word_body_framed _ _ _ _ _ Hw). simpl. rewrite IH. simpl.
    by rewrite <- !app_assoc.
Qed.

(** Every name of the corpus can be framed with the vocabulary built from
    that corpus, and its codes lie in [0, V-1]. *)
Lemma framed_exists (words : list string) (word : string) :
  Forall (fun c => c ∈ join words) (list_ascii_of_string word) ->
  exists codes, framed (stoi (build words)) word codes /\
    Forall (fun i => 0 <= i < size (build words)) codes.
Proof.
  intros Hin.
  assert (Hbody : exists body,
    Forall2 (fun ch i => stoi (build words) !! ch = Some i) (list_ascii_of_string word) body /\
    Forall (fun i => 0 <= i < size (build words)) body).
  { induction Hin as [|c cs Hc Hcs (body & HF & HR)]; [by exists []|].
    destruct (stoi_total words c) as [i Hi]; [by right|].
    exists (i :: body). split; constructor; try done. by eapply stoi_range. }
  destruct Hbody as (body & HF & HR).
  exists (body ++ [0]). split.
  - exists body. split; [done|]. split.
    + apply Forall2_length in HF. by rewrite <- HF, length_list_ascii_of_string.
    + rewrite list_ascii_of_string_app. apply Forall2_app; [done|].
      constructor; [apply stoi_lookup_boundary | constructor].
  - apply Forall_app. split; [done|]. constructor; [|constructor].
    pose proof (stoi_range words _ _ (stoi_lookup_boundary words)). done.
Qed.

Lemma join_elem_of (words : list string) (word : string) :
  word ∈ words -> Forall (fun c => c ∈ join words) (list_ascii_of_string word).
Proof.
  intros Hw. apply Forall_forall. intros c Hc. unfold join.
  apply (elem_of_concat_2 _ (list_ascii_of_string word)); [done|].
  by apply list_elem_of_fmap_2.
Qed.

Lemma framed_corpus (words : list string) :
  exists codess, Forall2 (framed (stoi (build words))) words codess /\
    Forall (Forall (fun i => 0 <= i < size (build words))) codess.
Proof.
  assert (H : forall ws, ws ⊆ words -> exists codess,
    Forall2 (framed (stoi (build words))) ws codess /\
    Forall (Forall (fun i => 0 <= i < size (build words))) codess).
  { induction ws as [|w ws IH]; intros Hsub; [by exists []|].
    destruct IH as (codess & HF & HR); [set_solver|].
    destruct (framed_exists words w) as (codes & Hc & Hr).
    { apply join_elem_of. set_solver. }
    exists (codes :: codess). split; by constructor. }
  by apply H.
Qed.

End ExamplesFacts.

Module ExamplesTheorems.
Import Vocab VocabFacts VocabTheorems Examples ExamplesFacts Inputs.

Lemma length_concat_framed (stoi : gmap ascii Z) (words : list string)
    (codess : list (list Z)) :
  Forall2 (framed stoi) words codess ->
  length (concat codess) = (total_chars words + length words)%nat.
Proof.
  unfold total_chars.
  induction 1 as [|w codes words codess (body & -> & Hb & _) HF IH]; csimpl; [done|].
  rewrite !length_app, IH, Hb. simpl. lia.
Qed.

Lemma length_concat_windows (c : list Z) (codess : list (list Z)) :
  length (concat (windows c <$> codess)) = length (concat codess).
Proof.
  induction codess as [|codes codess IH]; csimpl; [done|].
  by rewrite !length_app, length_windows, IH.
Qed.

(** C6: for a corpus of N names with T characters in total, the example
    builder (run with the vocabulary of that corpus) returns exactly T + N
    contexts and T + N targets; they are the concatenation, in corpus
    order, of one block per name, the block of a name of length L holding
    L + 1 examples of which the last has target 0. *)
Theorem example_count (words : list string) (ctx_len : Z) :
  exists (X : list (list Z)) (Y : list Z) (blocks : list (list (list Z) * list Z)),
    build_examples (stoi (build words)) ctx_len words = Ok (X, Y) /\
    length X = (total_chars words + length words)%nat /\
    length Y = (total_chars words + length words)%nat /\
    X = concat (fst <$> blocks) /\
    Y = concat (snd <$> blocks) /\
    Forall2 (fun word b =>
               name_examples (stoi (build words)) ctx_len word = Ok b /\
               length b.1 = (String.length word + 1)%nat /\
               length b.2 = (String.length word + 1)%nat /\
               last b.2 = Some 0)
            words blocks.
Proof.
  destruct (framed_corpus words) as (codess & HF & _).
  set (c0 := replicate (Z.to_nat ctx_len) 0).
  exists (concat (windows c0 <$> codess)), (concat codess),
         ((fun codes => (windows c0 codes, codes)) <$> codess).
  split; [unfold build_examples; by rewrite (build_loop _ _ _ _ _ HF)|].
  split; [rewrite length_concat_windows; by eapply length_concat_framed|].
  split; [by eapply length_concat_framed|].
  split; [by rewrite <- list_fmap_compose|].
  split; [rewrite <- list_fmap_compose; simpl; by rewrite list_fmap_id|].
  apply Forall2_fmap_r. eapply Forall2_impl; [exact HF|].
  intros w codes Hw. simpl.
  split; [unfold name_examples; by rewrite (word_body_framed _ _ _ _ _ Hw)|].
  destruct Hw as (body & -> & Hb & _).
  rewrite length_windows, length_app, Hb, last_snoc. simpl. done.
Qed.

(** C7: the examples a name of the corpus contributes start with a context
    of C copies of code 0, and each later context is the one before it minus
    its first entry, followed by the target of the example before it; when
    C is at least 1 every context has length C, so this is a shift to the
    left by one position. *)
Theorem context_sliding (words : list string) (ctx_len : Z) (word : string) :
  word ∈ words ->
  exists (X : list (list Z)) (Y : list Z),
    name_examples (stoi (build words)) ctx_len word = Ok (X, Y) /\
    X !! 0%nat = Some (replicate (Z.to_nat ctx_len) 0) /\
    (forall (i : nat) (earlier later : list Z) (target : Z),
       X !! i = Some earlier -> Y !! i = Some target -> X !! S i = Some later ->
       later = drop 1 earlier ++ [target]) /\
    (1 <= ctx_len -> Forall (fun c => length c = Z.to_nat ctx_len) X).
Proof.
  intros Hw.
  destruct (framed_exists words word) as (codes & Hc & _); [by apply join_elem_of|].
  set (c0 := replicate (Z.to_nat ctx_len) 0).
  exists (windows c0 codes), codes.
  split; [unfold name_examples; by rewrite (word_body_framed _ _ _ _ _ Hc)|].
  split.
  { destruct Hc as (body & -> & _). by destruct body. }
  split.
  { intros i a b t. apply windows_slide. }
  intros Hlen.
  assert (E : length c0 = Z.to_nat ctx_len) by apply length_replicate.
  rewrite <- E. apply windows_length_each. lia.
Qed.

Lemma context_sliding_witness :
  exists (X : list (list Z)) (Y : list Z),
    name_examples (stoi (build corpus3)) 3 "aab" = Ok (X, Y) /\
    X !! 0%nat = Some (replicate (Z.to_nat 3) 0) /\
    (forall (i : nat) (earlier later : list Z) (target : Z),
       X !! i = Some earlier -> Y !! i = Some target -> X !! S i = Some later ->
       later = drop 1 earlier ++ [target]) /\
    (1 <= 3 -> Forall (fun c => length c = Z.to_nat 3) X).
Proof.
  apply (context_sliding corpus3 3 "aab").
  apply (bool_decide_unpack _). by vm_compute.
Defined.

(** The run the specification uses as its example: "ab", "ba", "aab" with
    a context of length 3. *)
Example build_examples_corpus3 :
  build_examples (stoi (build corpus3)) 3 corpus3 =
  Ok ([[0; 0; 0]; [0; 0; 1]; [0; 1; 2];
       [0; 0; 0]; [0; 0; 2]; [0; 2; 1];
       [0; 0; 0]; [0; 0; 1]; [0; 1; 1]; [1; 1; 2]],
      [1; 2; 0; 2; 1; 0; 1; 1; 2; 0]).
Proof. by vm_compute. Qed.

End ExamplesTheorems.

(** ** Tensors and the language model *)

Lemma length_concat_uniform {A : Type} (k : nat) (ls : list (list A)) :
  Forall (fun r => length r = k) ls -> length (concat ls) = (length ls * k)%nat.
Proof.
  induction 1 as [|r ls Hr _ IH]; simpl; [done|]. rewrite length_app, IH, Hr. lia.
Qed.

Lemma concat_fmap_concat {A B : Type} (f : A -> list B) (ls : list (list A)) :
  concat (f <$> concat ls) = concat ((fun l => concat (f <$> l)) <$> ls).
Proof.
  induction ls as [|l ls IH]; csimpl; [done|].
  by rewrite fmap_app, concat_app, IH.
Qed.

Lemma fmap_concat_rows {A B : Type} (f : A -> B) (ls : list (list A)) :
  f <$> concat ls = concat ((fun l : list A => f <$> l) <$> ls).
Proof.
  induction ls as [|l ls IH]; csimpl; [done|]. by rewrite fmap_app, IH.
Qed.

(** Cutting a storage made of rows of width [k] gives the rows back. *)
Lemma chunk_concat {A : Type} (k : nat) (ls : list (list A)) :
  Forall (fun r => length r = k) ls -> chunk k (length ls) (concat ls) = ls.
Proof.
  induction 1 as [|r ls Hr _ IH]; simpl; [done|].
  rewrite take_app_length' by done. rewrite drop_app_length' by done.
  by rewrite IH.
Qed.

Module MLPLMFacts.
Import MLPLM.

Section Net.
Context {R : Type} (R0 : R) (Radd Rmul Rmax : R -> R -> R).

Lemma length_matrix (rows cols : nat) (f : nat -> nat -> R) :
  length (matrix rows cols f) = rows.
Proof. unfold matrix. by rewrite length_fmap, length_seq. Qed.

Lemma matrix_row_length (rows cols : nat) (f : nat -> nat -> R) (i : nat) (r : list R) :
  matrix rows cols f !! i = Some r -> length r = cols.
Proof.
  unfold matrix. rewrite list_lookup_fmap. intros H.
  apply fmap_Some in H as (j & _ & ->). by rewrite length_fmap, length_seq.
Qed.


Lemma embedding_row_Ok (e : @Embedding R) (i : Z) :
  0 <= i < Z.of_nat (length (emb_weight e)) ->
  embedding_row e i = Ok (row_of (emb_weight e) i).
Proof.
  intros Hi. unfold embedding_row, row_of. rewrite decide_True by done.
  destruct (emb_weight e !! Z.to_nat i) as [row|] eqn:E; [done|].
  apply lookup_ge_None in E. lia.
Qed.

Lemma embedding_rows_Ok (e : @Embedding R) (idxs : list Z) (acc : list (list R)) :
  Forall (fun i => 0 <= i < Z.of_nat (length (emb_weight e))) idxs ->
  for_each (fun acc i => row ← embedding_row e i; Ok (acc ++ [row])) acc idxs =
  Ok (acc ++ (row_of (emb_weight e) <$> idxs)).
Proof.
  intros H. revert acc. induction H as [|i idxs Hi _ IH]; intros acc; csimpl.
  - by rewrite app_nil_r.
  - rewrite embedding_row_Ok by done. csimpl. rewrite IH. by rewrite <- app_assoc.
Qed.

(** With every index inside the table no lookup raises, and the result
    has the shape of the input followed by [embedding_dim]. *)
Lemma Embedding_forward_Ok (e : @Embedding R) (x : tensor Z) :
  Forall (fun i => 0 <= i < Z.of_nat (length (emb_weight e))) (data x) ->
  Embedding_forward e x =
  Ok (Tensor (shape x ++ [embedding_dim e]) (concat (row_of (emb_weight e) <$> data x))).
Proof.
  intros H. unfold Embedding_forward. by rewrite embedding_rows_Ok.
Qed.

Lemma Linear_forward_rows (l : @Linear R) (n : nat) (rows : list (list R)) :
  length rows = n -> Forall (fun r => length r = in_features l) rows ->
  Linear_forward R0 Radd Rmul l (Tensor [n; in_features l] (concat rows)) =
  Ok (Tensor [n; out_features l]
        (concat (linear_plus_bias R0 Radd Rmul (weight l) (bias l) <$> rows))).
Proof.
  intros Hn Hrows. unfold Linear_forward. simpl.
  rewrite decide_True by done. simpl.
  rewrite Nat.mul_1_r, <- Hn, chunk_concat by done. done.
Qed.

Lemma length_linear_plus_bias (W : list (list R)) (b v : list R) :
  length (linear_plus_bias R0 Radd Rmul W b v) = (length W `min` length b)%nat.
Proof. unfold linear_plus_bias. by rewrite length_zip_with, length_fmap. Qed.

Lemma forward_batch_rows (V D C : nat) (iv : @initial_values R) (contexts : list (list Z)) :
  contexts <> [] ->
  Forall (fun c => length c = C /\ Forall (fun i => 0 <= i < Z.of_nat V) c) contexts ->
  forward R0 Radd Rmul Rmax (init V D C iv) (batch C contexts) =
  Ok (Tensor [length contexts; V] (concat (logits_of R0 Radd Rmul Rmax V D C iv <$> contexts))).
Proof.
  intros Hne Hall.
  set (E := matrix V D (init_embedding iv)).
  set (row := fun c : list Z => concat (row_of E <$> c)).
  assert (Hrow : Forall (fun r => length r = (D * C)%nat) (row <$> contexts)).
  { apply Forall_fmap. eapply Forall_impl; [exact Hall|]. intros c [Hc Hr]. simpl.
    unfold row. rewrite (length_concat_uniform D).
    - rewrite length_fmap. lia.
    - apply Forall_fmap. eapply Forall_impl; [exact Hr|]. intros i Hi. simpl.
      unfold row_of. destruct (E !! Z.to_nat i) as [r|] eqn:Er.
      + simpl. by eapply matrix_row_length.
      + apply lookup_ge_None in Er. unfold E in Er. rewrite length_matrix in Er.
        cbv beta in Hi. lia. }
  unfold forward, batch. rewrite Embedding_forward_Ok; cbn [data shape].
  2:{ cbn [init embedding emb_weight]. rewrite length_matrix. apply Forall_concat.
      eapply Forall_impl; [exact Hall|]. by intros c [_ Hr]. }
  cbn [init embedding emb_weight embedding_dim fc]. fold E.
  rewrite concat_fmap_concat. fold row.
  cbn [mbind result_bind size0 shape app].
  unfold view_infer. cbn [data].
  rewrite (length_concat_uniform _ _ Hrow), length_fmap.
  rewrite (Nat.mul_comm (length contexts)).
  assert (Hn : length contexts <> 0%nat) by (by destruct contexts).
  rewrite decide_False by done.
  rewrite Nat.Div0.mod_mul, decide_True by done.
  rewrite Nat.div_mul by done.
  unfold Sequential_forward. cbn [for_each layer_forward mbind result_bind].
  pose proof (Linear_forward_rows
    (new_Linear (D * C) hidden_units (init_weight1 iv) (init_bias1 iv))
    (length contexts) (row <$> contexts)) as H1.
  cbn [in_features out_features new_Linear weight bias] in H1.
  rewrite H1; [|by rewrite length_fmap | done]. clear H1.
  cbn [mbind result_bind]. unfold ReLU_forward. cbn [shape data].
  rewrite fmap_concat_rows, <- !list_fmap_compose.
  pose proof (Linear_forward_rows
    (new_Linear hidden_units V (init_weight2 iv) (init_bias2 iv)) (length contexts)) as H2.
  cbn [in_features out_features new_Linear weight bias] in H2.
  rewrite H2; [| by rewrite length_fmap |].
  - cbn [mbind result_bind]. by rewrite <- list_fmap_compose.
  - apply Forall_fmap, Forall_forall. intros c _. cbn [compose].
    rewrite length_fmap, length_linear_plus_bias.
    rewrite length_matrix, length_fmap, length_seq. lia.
Qed.

Lemma length_logits_of (V D C : nat) (iv : @initial_values R) (context : list Z) :
  length (logits_of R0 Radd Rmul Rmax V D C iv context) = V.
Proof.
  unfold logits_of, spec_logits. rewrite length_linear_plus_bias.
  rewrite length_matrix, length_fmap, length_seq. lia.
Qed.

End Net.

End MLPLMFacts.

Module MLPLMTheorems.
Import MLPLM MLPLMFacts Inputs.

Section Net.
Context {R : Type} (R0 : R) (Radd Rmul Rmax : R -> R -> R).

(** C3 (as amended): [forward] takes a batch.  For every non-empty batch of
    N contexts, each of C codes in [0, V-1], it returns the N-by-V matrix
    whose rows are, context by context, what the specification describes:
    the C embedding vectors concatenated in order, the first linear
    transform plus bias, [max(0, x)] elementwise, the second linear
    transform plus bias, and nothing after it (no softmax).  Each row has V
    entries.  The model is any model with the shapes the constructor gives
    it; [iv] holds the values of its parameters. *)
Theorem forward_batch_logits (V D C : nat) (iv : @initial_values R)
    (contexts : list (list Z)) :
  contexts <> [] ->
  Forall (fun c => length c = C /\ Forall (fun i => 0 <= i < Z.of_nat V) c) contexts ->
  forward R0 Radd Rmul Rmax (init V D C iv) (batch C contexts) =
    Ok (Tensor [length contexts; V]
          (concat (logits_of R0 Radd Rmul Rmax V D C iv <$> contexts))) /\
  Forall (fun c => length (logits_of R0 Radd Rmul Rmax V D C iv c) = V) contexts.
Proof.
  intros Hne Hall. split; [by apply forward_batch_rows|].
  apply Forall_forall. intros c _. apply length_logits_of.
Qed.

(** One context goes through [forward] as a batch of one, the way the
    sampling loop passes it: [torch.tensor(ctx).unsqueeze(0)]. *)
Lemma forward_single_context (V D C : nat) (iv : @initial_values R) (context : list Z) :
  length context = C -> Forall (fun i => 0 <= i < Z.of_nat V) context ->
  forward R0 Radd Rmul Rmax (init V D C iv) (unsqueeze0 (torch_tensor1 context)) =
  Ok (Tensor [1%nat; V] (logits_of R0 Radd Rmul Rmax V D C iv context)).
Proof.
  intros Hlen Hr.
  pose proof (forward_batch_rows R0 Radd Rmul Rmax V D C iv [context]) as H.
  unfold batch in H. cbn [length concat fmap list_fmap] in H.
  rewrite !app_nil_r in H. unfold unsqueeze0, torch_tensor1. cbn [shape data].
  rewrite Hlen. apply H; [done|]. by repeat constructor.
Qed.

(** Without the batch dimension the call is refused: the C embedding
    vectors stay C rows of width D, and the first linear layer expects rows
    of width D * C. *)
Lemma forward_unbatched_rejected (V D C : nat) (iv : @initial_values R) (context : list Z) :
  (2 <= C)%nat -> (1 <= D)%nat ->
  length context = C -> Forall (fun i => 0 <= i < Z.of_nat V) context ->
  forward R0 Radd Rmul Rmax (init V D C iv) (torch_tensor1 context) = Raise RuntimeError.
Proof.
  intros HC HD Hlen Hr. unfold forward, torch_tensor1.
  rewrite Embedding_forward_Ok; cbn [data shape].
  2:{ cbn [init embedding emb_weight]. by rewrite length_matrix. }
  cbn [init embedding emb_weight embedding_dim fc app mbind result_bind size0 shape].
  unfold view_infer. cbn [data].
  rewrite (length_concat_uniform D), length_fmap.
  2:{ apply Forall_fmap. eapply Forall_impl; [exact Hr|]. intros i Hi. cbn [compose].
      unfold row_of. cbv beta in Hi.
      destruct (matrix V D (init_embedding iv) !! Z.to_nat i) as [r|] eqn:Er.
      - simpl. by eapply matrix_row_length.
      - apply lookup_ge_None in Er. rewrite length_matrix in Er. lia. }
  rewrite decide_False by lia.
  rewrite (Nat.mul_comm (length context)), Nat.Div0.mod_mul, decide_True by done.
  rewrite Nat.div_mul by lia.
  unfold Sequential_forward. cbn [for_each layer_forward mbind result_bind].
  unfold Linear_forward. cbn [shape last new_Linear in_features].
  rewrite decide_False; [done|]. nia.
Qed.

End Net.

Lemma forward_batch_logits_witness :
  [[0; 1; 2]; [0; 0; 0]] <> [] /\
  Forall (fun c => length c = 3%nat /\ Forall (fun i => 0 <= i < Z.of_nat 27) c)
    [[0; 1; 2]; [0; 0; 0]] /\
  forward 0 Z.add Z.mul Z.max (init 27 2 3 int_values) (batch 3 [[0; 1; 2]; [0; 0; 0]]) =
    Ok (Tensor [length [[0; 1; 2]; [0; 0; 0]]; 27%nat]
          (concat (logits_of 0 Z.add Z.mul Z.max 27 2 3 int_values <$> [[0; 1; 2]; [0; 0; 0]]))) /\
  Forall (fun c => length (logits_of 0 Z.add Z.mul Z.max 27 2 3 int_values c) = 27%nat)
    [[0; 1; 2]; [0; 0; 0]].
Proof.
  assert (H1 : [[0; 1; 2]; [0; 0; 0]] <> ([] : list (list Z))) by done.
  assert (H2 : Forall (fun c => length c = 3%nat /\ Forall (fun i => 0 <= i < Z.of_nat 27) c)
                 [[0; 1; 2]; [0; 0; 0]]).
  { repeat constructor; simpl; lia. }
  split; [exact H1|]. split; [exact H2|].
  exact (forward_batch_logits 0 Z.add Z.mul Z.max 27 2 3 int_values _ H1 H2).
Defined.

(** C3 (as stated) fails for a context passed on its own: with the default
    sizes, [forward] applied to the three codes [0, 0, 0] without a batch
    dimension raises a shape error instead of returning 27 logits. *)
Lemma forward_rejects_single_unbatched_context :
  forward 0 Z.add Z.mul Z.max (init 27 2 3 int_values) (torch_tensor1 [0; 0; 0]) =
  Raise RuntimeError.
Proof. by vm_compute. Qed.

Lemma forward_unbatched_rejected_witness :
  (2 <= 3)%nat /\ (1 <= 2)%nat /\ length [0; 1; 2] = 3%nat /\
  Forall (fun i => 0 <= i < Z.of_nat 27) [0; 1; 2] /\
  forward 0 Z.add Z.mul Z.max (init 27 2 3 int_values) (torch_tensor1 [0; 1; 2]) =
    Raise RuntimeError.
Proof.
  assert (H1 : (2 <= 3)%nat) by lia.
  assert (H2 : (1 <= 2)%nat) by lia.
  assert (H3 : length [0; 1; 2] = 3%nat) by reflexivity.
  assert (H4 : Forall (fun i => 0 <= i < Z.of_nat 27) [0; 1; 2]).
  { repeat constructor; simpl; lia. }
  split; [exact H1|]. split; [exact H2|]. split; [exact H3|]. split; [exact H4|].
  exact (forward_unbatched_rejected 0 Z.add Z.mul Z.max 27 2 3 int_values _ H1 H2 H3 H4).
Defined.

Lemma forward_single_context_witness :
  length [0; 1; 2] = 3%nat /\
  Forall (fun i => 0 <= i < Z.of_nat 27) [0; 1; 2] /\
  forward 0 Z.add Z.mul Z.max (init 27 2 3 int_values)
    (unsqueeze0 (torch_tensor1 [0; 1; 2])) =
  Ok (Tensor [1%nat; 27%nat] (logits_of 0 Z.add Z.mul Z.max 27 2 3 int_values [0; 1; 2])).
Proof.
  assert (H3 : length [0; 1; 2] = 3%nat) by reflexivity.
  assert (H4 : Forall (fun i => 0 <= i < Z.of_nat 27) [0; 1; 2]).
  { repeat constructor; simpl; lia. }
  split; [exact H3|]. split; [exact H4|].
  exact (forward_single_context 0 Z.add Z.mul Z.max 27 2 3 int_values _ H3 H4).
Defined.

(** The logits of the context [0, 1, 2] in a model with three codes and
    embeddings of dimension 1: the embedding vectors are 0, 1, 2, hidden
    unit [i] holds [max(0, 4i - 5)], and logit [k] is the sum over [i] of
    [max(0, 4i - 5) * (i - k)], plus 1. *)
Example forward_small_model :
  forward 0 Z.add Z.mul Z.max (init 3 1 3 int_values) (batch 3 [[0; 1; 2]]) =
  Ok (Tensor [1%nat; 3%nat] [10487302; 10408696; 10330090]).
Proof. by vm_compute. Qed.

End MLPLMTheorems.

(** ** The examples fed to the model *)

Module PipelineTheorems.
Import Vocab VocabFacts VocabTheorems Examples ExamplesFacts MLPLM MLPLMFacts Inputs.


(** The contexts of a non-empty corpus, for a context length of at least 1,
    are rows of one length, and [torch.tensor] stores them as a batch. *)
Lemma examples_tensor (stoi : gmap ascii Z) (words : list string) (C : nat)
    (codess : list (list Z)) :
  (1 <= C)%nat -> words <> [] -> Forall2 (framed stoi) words codess ->
  concat (windows (replicate C 0) <$> codess) <> [] /\
  Forall (fun r => length r = C) (concat (windows (replicate C 0) <$> codess)) /\
  torch_tensor2 (concat (windows (replicate C 0) <$> codess)) =
    Ok (batch C (concat (windows (replicate C 0) <$> codess))).
Proof.
  intros HC Hne HF.
  assert (Hlen : Forall (fun r => length r = C)
                   (concat (windows (replicate C 0) <$> codess))).
  { apply Forall_concat, Forall_fmap, Forall_forall. intros codes _. cbn [compose].
    pose proof (windows_length_each (replicate C 0) codes) as H.
    rewrite length_replicate in H. by apply H. }
  assert (Hx : concat (windows (replicate C 0) <$> codess) <> []).
  { inversion HF as [|w codes ws codess' (body & -> & _) _]; subst; [done|].
    csimpl. by destruct body. }
  split; [done|]. split; [done|].
  unfold torch_tensor2, batch.
  destruct (concat (windows (replicate C 0) <$> codess)) as [|r rows]; [done|].
  apply Forall_cons in Hlen as Hr. destruct Hr as [Hr _].
  destruct r as [|x r]; [simpl in Hr; lia|].
  rewrite decide_True; [by rewrite Hr|].
  eapply Forall_impl; [exact Hlen|]. intros r'. cbv beta. lia.
Qed.

(** With a context length of at least 1 the contexts of a non-empty corpus
    do form a tensor: one row of C codes per example. *)
Lemma torch_tensor2_examples (words : list string) (ctx_len : Z)
    (X : list (list Z)) (Y : list Z) :
  1 <= ctx_len -> words <> [] ->
  build_examples (stoi (build words)) ctx_len words = Ok (X, Y) ->
  torch_tensor2 X = Ok (Tensor [length X; Z.to_nat ctx_len] (concat X)).
Proof.
  intros HC Hne Hb.
  destruct (framed_corpus words) as (codess & HF & _).
  unfold build_examples in Hb. rewrite (build_loop _ _ _ _ _ HF) in Hb.
  injection Hb as <- <-. cbn [fst app].
  set (c0 := replicate (Z.to_nat ctx_len) 0).
  assert (Hlen : Forall (fun r => length r = Z.to_nat ctx_len)
                   (concat (windows c0 <$> codess))).
  { apply Forall_concat, Forall_fmap, Forall_forall. intros codes _. cbn [compose].
    assert (E : length c0 = Z.to_nat ctx_len) by apply length_replicate.
    rewrite <- E. apply windows_length_each. lia. }
  unfold torch_tensor2.
  destruct (concat (windows c0 <$> codess)) as [|r rows] eqn:EX.
  - inversion HF as [|w codes ws codess' (body & -> & _) _ Ew Ec]; subst; [done|].
    csimpl in EX. by destruct body.
  - apply Forall_cons in Hlen as Hr. destruct Hr as [Hr _].
    destruct r as [|x r]; [simpl in Hr; lia|].
    rewrite decide_True; [by rewrite Hr|].
    eapply Forall_impl; [exact Hlen|]. intros r'. cbv beta. lia.
Qed.

Lemma torch_tensor2_examples_witness :
  1 <= 3 /\ corpus3 <> [] /\
  build_examples (stoi (build corpus3)) 3 corpus3 =
    Ok ([[0; 0; 0]; [0; 0; 1]; [0; 1; 2];
         [0; 0; 0]; [0; 0; 2]; [0; 2; 1];
         [0; 0; 0]; [0; 0; 1]; [0; 1; 1]; [1; 1; 2]],
        [1; 2; 0; 2; 1; 0; 1; 1; 2; 0]) /\
  torch_tensor2 [[0; 0; 0]; [0; 0; 1]; [0; 1; 2];
                 [0; 0; 0]; [0; 0; 2]; [0; 2; 1];
                 [0; 0; 0]; [0; 0; 1]; [0; 1; 1]; [1; 1; 2]] =
    Ok (Tensor [length [[0; 0; 0]; [0; 0; 1]; [0; 1; 2];
                        [0; 0; 0]; [0; 0; 2]; [0; 2; 1];
                        [0; 0; 0]; [0; 0; 1]; [0; 1; 1]; [1; 1; 2]]; Z.to_nat 3]
          (concat [[0; 0; 0]; [0; 0; 1]; [0; 1; 2];
                   [0; 0; 0]; [0; 0; 2]; [0; 2; 1];
                   [0; 0; 0]; [0; 0; 1]; [0; 1; 1]; [1; 1; 2]])).
Proof.
  assert (H1 : 1 <= 3) by lia.
  assert (H2 : corpus3 <> []) by done.
  assert (H3 : build_examples (stoi (build corpus3)) 3 corpus3 =
               Ok ([[0; 0; 0]; [0; 0; 1]; [0; 1; 2];
                    [0; 0; 0]; [0; 0; 2]; [0; 2; 1];
                    [0; 0; 0]; [0; 0; 1]; [0; 1; 1]; [1; 1; 2]],
                   [1; 2; 0; 2; 1; 0; 1; 1; 2; 0])) by (by vm_compute).
  split; [exact H1|]. split; [exact H2|]. split; [exact H3|].
  exact (torch_tensor2_examples corpus3 3 _ _ H1 H2 H3).
Defined.




End PipelineTheorems.

(** ** The trainer *)

Module TrainerFacts.
Import Trainer.

Section Fit.
Context {params grads moments Xt Yt logits loss_t : Type}.
Context (model : params -> Xt -> result logits)
        (loss_fn : logits -> Yt -> loss_t)
        (gradient : params -> Xt -> Yt -> grads)
        (accumulate : grads -> grads -> grads)
        (update : moments -> params -> grads -> moments * params).

#[local] Abbreviation train_state := (@train_state params grads moments).
#[local] Abbreviation fit_state := (@fit_state params grads moments loss_t).
#[local] Abbreviation epoch_body := (epoch_body model loss_fn gradient accumulate update).
#[local] Abbreviation fit := (fit model loss_fn gradient accumulate update).
#[local] Abbreviation spec_run := (spec_run gradient update).
#[local] Abbreviation spec_epoch := (spec_epoch gradient update).

(** What one epoch leaves in the mutated objects: whatever [.grad] held
    before, the step is taken along the gradient of this epoch alone. *)
Lemma epoch_objects (X : Xt) (Y : Yt) (o : train_state) :
  let o' := step update (backward gradient accumulate X Y (zero_grad o)) in
  (parameters o', optim o') = spec_epoch X Y (parameters o, optim o) /\
  grad o' = Some (gradient (parameters o) X Y).
Proof. done. Qed.

Lemma epoch_body_Ok (X : Xt) (Y : Yt) (epochs epoch : Z) (s : fit_state) (out : logits) :
  10 <= epochs ->
  model (parameters (objects s)) X = Ok out ->
  exists lines,
    epoch_body X Y epochs s epoch =
    Ok {| objects := step update (backward gradient accumulate X Y (zero_grad (objects s)));
          train_loss := train_loss s ++ [loss_fn out Y];
          printed := lines |}.
Proof.
  intros HE Hm. unfold Trainer.epoch_body. rewrite Hm. cbn [mbind result_bind].
  unfold py_mod. rewrite decide_False.
  - cbn [mbind result_bind]. eauto.
  - assert (1 <= epochs / 10); [|lia]. apply Z.div_le_lower_bound; lia.
Qed.

Lemma epoch_body_div0 (X : Xt) (Y : Yt) (epochs epoch : Z) (s : fit_state) (out : logits) :
  0 <= epochs <= 9 ->
  model (parameters (objects s)) X = Ok out ->
  epoch_body X Y epochs s epoch = Raise ZeroDivisionError.
Proof.
  intros HE Hm. unfold Trainer.epoch_body. rewrite Hm. cbn [mbind result_bind].
  unfold py_mod. rewrite Z.div_small by lia. by rewrite decide_True.
Qed.

(** The loop after [n] of its [epochs] iterations, when [epochs] is at
    least 10 and the model accepts [X]. *)
Lemma fit_prefix (X : Xt) (Y : Yt) (epochs : Z) (s : train_state) (n : nat) :
  10 <= epochs ->
  (forall p, exists out, model p X = Ok out) ->
  exists fs,
    for_each (epoch_body X Y epochs)
      {| objects := s; train_loss := []; printed := [] |} (seqZ 0 (Z.of_nat n)) = Ok fs /\
    (parameters (objects fs), optim (objects fs)) = spec_run X Y n (parameters s, optim s) /\
    length (train_loss fs) = n /\
    (forall k, (k < n)%nat -> exists out,
       model (spec_run X Y k (parameters s, optim s)).1 X = Ok out /\
       train_loss fs !! k = Some (loss_fn out Y)).
Proof.
  intros HE Hm. induction n as [|n (fs & Hrun & Hpm & Hlen & Hloss)].
  - eexists. split; [done|]. split; [done|]. split; [done|]. intros k Hk. lia.
  - rewrite seqZ_S, for_each_app, Hrun. cbn [mbind result_bind for_each].
    destruct (Hm (parameters (objects fs))) as [out Hout].
    destruct (epoch_body_Ok X Y epochs (0 + Z.of_nat n) fs out HE Hout) as [lines ->].
    cbn [mbind result_bind]. eexists. split; [done|]. cbn [objects train_loss].
    split.
    { destruct (epoch_objects X Y (objects fs)) as [-> _]. by rewrite Hpm. }
    split; [rewrite length_app, Hlen; simpl; lia|].
    intros k Hk. destruct (decide (k = n)) as [->|Hne].
    + exists out. rewrite <- Hpm. split; [done|].
      rewrite lookup_app_r by lia. by rewrite Hlen, Nat.sub_diag.
    + destruct (Hloss k) as (out' & Ho & Hl); [lia|].
      exists out'. split; [done|]. rewrite lookup_app_l by lia. done.
Qed.

End Fit.

End TrainerFacts.

Module TrainerTheorems.
Import Trainer TrainerFacts Inputs.

Section Fit.
Context {params grads moments Xt Yt logits loss_t : Type}.
Context (model : params -> Xt -> result logits)
        (loss_fn : logits -> Yt -> loss_t)
        (gradient : params -> Xt -> Yt -> grads)
        (accumulate : grads -> grads -> grads)
        (update : moments -> params -> grads -> moments * params).

(** C4 at its failing inputs: with 1 to 9 epochs, [epochs // 10] is 0 and the
    test [epoch % (epochs // 10) == 0] of the progress report divides by
    zero in the first epoch, after the first update; [fit] raises
    ZeroDivisionError and returns no loss history. *)
Theorem fit_few_epochs_raises (s : @train_state params grads moments) (X : Xt) (Y : Yt)
    (epochs : Z) (out : logits) :
  1 <= epochs <= 9 ->
  model (parameters s) X = Ok out ->
  fit model loss_fn gradient accumulate update s X Y epochs = Raise ZeroDivisionError.
Proof.
  intros HE Hm. unfold fit. rewrite seqZ_cons by lia. cbn [for_each].
  rewrite (epoch_body_div0 model loss_fn gradient accumulate update X Y epochs 0 _ out);
    [done | lia | done].
Qed.

(** From 10 epochs on, [fit] does what the specification says of it: one
    update per epoch, along the gradient of the loss of the whole example
    set at the current parameters and nothing carried over from [.grad],
    and a loss history with one entry per epoch, in epoch order. *)
Theorem fit_ten_or_more_epochs (s : @train_state params grads moments) (X : Xt) (Y : Yt)
    (epochs : Z) :
  10 <= epochs ->
  (forall p, exists out, model p X = Ok out) ->
  exists fs,
    fit model loss_fn gradient accumulate update s X Y epochs = Ok fs /\
    (parameters (objects fs), optim (objects fs)) =
      spec_run gradient update X Y (Z.to_nat epochs) (parameters s, optim s) /\
    Z.of_nat (length (train_loss fs)) = epochs /\
    (forall k : nat, Z.of_nat k < epochs -> exists out,
       model (spec_run gradient update X Y k (parameters s, optim s)).1 X = Ok out /\
       train_loss fs !! k = Some (loss_fn out Y)).
Proof.
  intros HE Hm.
  destruct (fit_prefix model loss_fn gradient accumulate update X Y epochs s
              (Z.to_nat epochs) HE Hm) as (fs & Hrun & Hpm & Hlen & Hloss).
  rewrite Z2Nat.id in Hrun by lia.
  exists fs. split; [done|]. split; [done|]. split; [lia|].
  intros k Hk. apply Hloss. lia.
Qed.

End Fit.

Lemma fit_few_epochs_raises_witness :
  1 <= 5 <= 9 /\
  toy_model (parameters toy_start) 1 = Ok 16 /\
  fit toy_model toy_loss toy_gradient Z.add toy_update toy_start 1 0 5 =
    Raise ZeroDivisionError.
Proof.
  assert (H1 : 1 <= 5 <= 9) by lia.
  assert (H2 : toy_model (parameters toy_start) 1 = Ok 16) by reflexivity.
  split; [exact H1|]. split; [exact H2|].
  exact (fit_few_epochs_raises toy_model toy_loss toy_gradient Z.add toy_update
           toy_start 1 0 5 16 H1 H2).
Defined.

(** Ten epochs of the toy regression: ten losses, in epoch order. *)
Example fit_toy_ten_epochs :
  exists fs,
    fit toy_model toy_loss toy_gradient Z.add toy_update toy_start 1 0 10 = Ok fs /\
    train_loss fs = [256; 64; 16; 4; 1; 1; 1; 1; 1; 1] /\
    printed fs = (fun k => (k, default 0 (train_loss fs !! Z.to_nat k))) <$> seqZ 0 10.
Proof. eexists. split; [by vm_compute|]. by vm_compute. Qed.

Lemma fit_ten_or_more_epochs_witness :
  10 <= 10 /\
  (forall p, exists out, toy_model p 1 = Ok out) /\
  exists fs,
    fit toy_model toy_loss toy_gradient Z.add toy_update toy_start 1 0 10 = Ok fs /\
    (parameters (objects fs), optim (objects fs)) =
      spec_run toy_gradient toy_update 1 0 (Z.to_nat 10)
        (parameters toy_start, optim toy_start) /\
    Z.of_nat (length (train_loss fs)) = 10 /\
    (forall k : nat, Z.of_nat k < 10 -> exists out,
       toy_model (spec_run toy_gradient toy_update 1 0 k
                    (parameters toy_start, optim toy_start)).1 1 = Ok out /\
       train_loss fs !! k = Some (toy_loss out 0)).
Proof.
  assert (H1 : 10 <= 10) by lia.
  assert (H2 : forall p, exists out, toy_model p 1 = Ok out).
  { intros p. eexists. reflexivity. }
  split; [exact H1|]. split; [exact H2|].
  exact (fit_ten_or_more_epochs toy_model toy_loss toy_gradient Z.add toy_update
           toy_start 1 0 10 H1 H2).
Defined.

End TrainerTheorems.

(** ** The sampler *)

Module SamplerFacts.
Import Vocab VocabFacts VocabTheorems ExamplesFacts Sampler.

Lemma string_length_app (a b : string) :
  String.length (a +:+ b) = (String.length a + String.length b)%nat.
Proof.
  by rewrite <- !length_list_ascii_of_string, list_ascii_of_string_app, length_app.
Qed.

Lemma boundary_not_in_snoc (name : string) (c : ascii) :
  boundary ∉ list_ascii_of_string name -> c <> boundary ->
  boundary ∉ list_ascii_of_string (name +:+ String c EmptyString).
Proof.
  intros Hn Hc. rewrite list_ascii_of_string_app. simpl.
  rewrite not_elem_of_app. split; [done|]. rewrite list_elem_of_singleton. congruence.
Qed.

(** In the vocabulary of a corpus without the boundary symbol, only code 0
    decodes to the boundary symbol. *)
Lemma itos_boundary_iff (words : list string) (idx : Z) :
  boundary_free words ->
  itos (build words) !! idx = Some boundary <-> idx = 0.
Proof.
  intros Hbf. rewrite itos_lookup. split.
  - case_decide; [done|]. case_decide; [|done]. intros Hl.
    exfalso. apply Hbf, elem_of_chars. by eapply list_elem_of_lookup_2.
  - intros ->. by rewrite decide_True.
Qed.

Section Loop.
Context {R G : Type}.
Context (model : tensor Z -> result (tensor R))
        (softmax : tensor R -> tensor R)
        (multinomial : tensor R -> G -> Z * G)
        (itos : gmap Z ascii).

#[local] Abbreviation state := (@state G).
#[local] Abbreviation sampled := (sampled model softmax multinomial).
#[local] Abbreviation loop_body := (loop_body model softmax multinomial itos).
#[local] Abbreviation while_true := (while_true model softmax multinomial itos).
#[local] Abbreviation generate := (generate model softmax multinomial itos).
#[local] Abbreviation generate_names := (generate_names model softmax multinomial itos).

(** What one iteration does, by the code drawn and what it decodes to. *)
Lemma loop_body_inv (s : state) (c : control) :
  loop_body s = Ok c ->
  exists idx char s',
    sampled s = Ok idx /\ itos !! idx = Some char /\
    gen_name s' = gen_name s +:+ String char EmptyString /\
    c = (if decide (char = boundary) then Break s' else Continue s').
Proof.
  unfold Sampler.loop_body, Sampler.sampled.
  destruct (model (unsqueeze0 (torch_tensor1 (ctx s)))) as [out|e];
    cbn [mbind result_bind]; [|done].
  unfold getitem.
  destruct (itos !! (multinomial (softmax out) (rng s)).1) as [char|] eqn:E;
    cbn [mbind result_bind]; [|done].
  intros [= <-]. eexists _, char, (Build_state _ _ _).
  split; [reflexivity|]. split; [exact E|]. split; reflexivity.
Qed.

Lemma loop_body_intro (s : state) (idx : Z) (char : ascii) :
  sampled s = Ok idx -> itos !! idx = Some char ->
  exists s',
    gen_name s' = gen_name s +:+ String char EmptyString /\
    loop_body s = Ok (if decide (char = boundary) then Break s' else Continue s').
Proof.
  unfold Sampler.loop_body, Sampler.sampled.
  destruct (model (unsqueeze0 (torch_tensor1 (ctx s)))) as [out|e];
    cbn [mbind result_bind]; [|done].
  intros [= <-] Hc. unfold getitem. rewrite Hc. cbn [mbind result_bind].
  eexists (Build_state _ _ _). split; reflexivity.
Qed.

(** The iteration leaves the loop exactly when the character decoded from
    the drawn code is the boundary symbol. *)
Lemma loop_body_Break_iff (s : state) :
  (exists s', loop_body s = Ok (Break s')) <->
  (exists idx, sampled s = Ok idx /\ itos !! idx = Some boundary).
Proof.
  split.
  - intros [s' H]. apply loop_body_inv in H as (idx & char & s'' & Hs & Hc & _ & Hb).
    case_decide; [subst; eauto | done].
  - intros (idx & Hs & Hc).
    destruct (loop_body_intro s idx boundary Hs Hc) as (s' & _ & H).
    rewrite decide_True in H by done. eauto.
Qed.

Lemma loop_body_Break_name (s s' : state) :
  loop_body s = Ok (Break s') -> gen_name s' = gen_name s +:+ ".".
Proof.
  intros H. apply loop_body_inv in H as (idx & char & s'' & _ & _ & Hn & Hb).
  case_decide; [|done]. injection Hb as ->. by subst.
Qed.

Lemma loop_body_Continue_name (s s' : state) :
  loop_body s = Ok (Continue s') ->
  exists char, char <> boundary /\ gen_name s' = gen_name s +:+ String char EmptyString.
Proof.
  intros H. apply loop_body_inv in H as (idx & char & s'' & _ & _ & Hn & Hb).
  case_decide; [done|]. injection Hb as ->. eauto.
Qed.

(** When the loop ends, the name built so far is followed by the boundary
    symbol; before that no boundary symbol enters the name. *)
Lemma while_true_Finished (fuel : nat) (s s' : state) :
  boundary ∉ list_ascii_of_string (gen_name s) ->
  while_true fuel s = Finished s' -> boundary_terminated (gen_name s').
Proof.
  revert s. induction fuel as [|fuel IH]; intros s Hs; cbn [Sampler.while_true]; [done|].
  destruct (loop_body s) as [[s1|s1]|e] eqn:E; [| |done].
  - intros H. apply (IH s1); [|done].
    apply loop_body_Continue_name in E as (char & Hc & ->).
    by apply boundary_not_in_snoc.
  - intros [= <-]. exists (gen_name s). split; [by apply loop_body_Break_name|done].
Qed.

Lemma while_true_Running (fuel : nat) (s s' : state) :
  boundary ∉ list_ascii_of_string (gen_name s) ->
  while_true fuel s = Running s' ->
  (boundary ∉ list_ascii_of_string (gen_name s')) /\
  String.length (gen_name s') = (String.length (gen_name s) + fuel)%nat.
Proof.
  revert s. induction fuel as [|fuel IH]; intros s Hs; cbn [Sampler.while_true].
  - intros [= <-]. split; [done | lia].
  - destruct (loop_body s) as [[s1|s1]|e] eqn:E; [|done|done].
    intros H. apply loop_body_Continue_name in E as (char & Hc & Hn).
    apply IH in H as [H1 H2]; [|rewrite Hn; by apply boundary_not_in_snoc].
    split; [done|]. rewrite H2, Hn, string_length_app. simpl. lia.
Qed.

(** If every draw decodes to a character other than the boundary symbol,
    the loop is still running after any number of iterations. *)
Lemma while_true_never_boundary (fuel : nat) (s : state) :
  (forall x, exists out, model x = Ok out) ->
  (forall probas g, exists char,
     itos !! (multinomial probas g).1 = Some char /\ char <> boundary) ->
  exists s', while_true fuel s = Running s'.
Proof.
  intros Hm Hd. revert s. induction fuel as [|fuel IH]; intros s; cbn [Sampler.while_true].
  - by eexists.
  - destruct (Hm (unsqueeze0 (torch_tensor1 (ctx s)))) as [out Hout].
    destruct (Hd (softmax out) (rng s)) as (char & Hc & Hne).
    destruct (loop_body_intro s (multinomial (softmax out) (rng s)).1 char)
      as (s1 & _ & ->).
    { unfold Sampler.sampled. by rewrite Hout. }
    { done. }
    rewrite decide_False by done. apply IH.
Qed.

Lemma generate_names_Finished (fuel num_names : nat) (g g' : G) (lines lines' : list string) :
  Forall boundary_terminated lines ->
  generate_names fuel num_names g lines = Finished (lines', g') ->
  Forall boundary_terminated lines' /\ length lines' = (length lines + num_names)%nat.
Proof.
  revert g lines. induction num_names as [|n IH]; intros g lines Hl;
    cbn [Sampler.generate_names].
  - intros [= <- <-]. split; [done | lia].
  - destruct (generate fuel g) as [s| |] eqn:E; [|done|done].
    intros H. apply IH in H as [H1 H2].
    + split; [done|]. rewrite H2, length_app. simpl. lia.
    + apply Forall_app. split; [done|]. constructor; [|constructor].
      unfold Sampler.generate in E. eapply while_true_Finished; [|exact E].
      simpl. apply not_elem_of_nil.
Qed.

End Loop.

End SamplerFacts.

Module SamplerTheorems.
Import Vocab VocabFacts VocabTheorems Sampler SamplerFacts Inputs.

Section Loop.
Context {R G : Type}.
Context (model : tensor Z -> result (tensor R))
        (softmax : tensor R -> tensor R)
        (multinomial : tensor R -> G -> Z * G).

(** C1 (as amended): over the vocabulary of a corpus without the boundary
    symbol, an iteration of the sampling loop leaves the loop exactly when
    the code it drew is 0.  The character is appended before that test, so
    the name the loop ends with, and every name printed, is a string of
    non-boundary characters followed by one boundary symbol: the boundary
    symbol is its last character and occurs nowhere else in it. *)
Theorem sampling_ends_at_boundary (words : list string) :
  boundary_free words ->
  (forall s : @state G,
     (exists s', loop_body model softmax multinomial (itos (build words)) s = Ok (Break s')) <->
     sampled model softmax multinomial s = Ok 0) /\
  (forall fuel g s,
     generate model softmax multinomial (itos (build words)) fuel g = Finished s ->
     boundary_terminated (gen_name s)) /\
  (forall fuel num_names g lines g',
     generate_names model softmax multinomial (itos (build words)) fuel num_names g [] =
       Finished (lines, g') ->
     Forall boundary_terminated lines /\ length lines = num_names).
Proof.
  intros Hbf. split; [|split].
  - intros s. rewrite loop_body_Break_iff. split.
    + intros (idx & Hs & Hc). apply itos_boundary_iff in Hc; [by subst | done].
    + intros Hs. exists 0. split; [done|]. by apply itos_boundary_iff.
  - intros fuel g s. unfold generate. apply while_true_Finished.
    simpl. apply not_elem_of_nil.
  - intros fuel n g lines g' H.
    by apply generate_names_Finished in H.
Qed.

(** C2 (as amended): the loop has no length cap.  In a run whose draws all
    decode to characters other than the boundary symbol, the loop is still
    running after any number [n] of iterations, with [n] characters
    generated and no error signalled. *)
Theorem sampling_has_no_cap (itos : gmap Z ascii) (n : nat) (g : G) :
  (forall x, exists out, model x = Ok out) ->
  (forall probas g', exists char,
     itos !! (multinomial probas g').1 = Some char /\ char <> boundary) ->
  exists s,
    generate model softmax multinomial itos n g = Running s /\
    String.length (gen_name s) = n /\
    boundary ∉ list_ascii_of_string (gen_name s).
Proof.
  intros Hm Hd. unfold generate.
  destruct (while_true_never_boundary model softmax multinomial itos n
              {| ctx := [0; 0; 0]; gen_name := EmptyString; rng := g |} Hm Hd) as [s Hs].
  exists s. split; [done|].
  apply while_true_Running in Hs as [H1 H2]; [done|]. simpl. apply not_elem_of_nil.
Qed.

End Loop.

Lemma sampling_ends_at_boundary_witness :
  boundary_free corpus3 /\
  (forall s : @state (list Z),
     (exists s', loop_body any_model no_softmax scripted (itos (build corpus3)) s = Ok (Break s')) <->
     sampled any_model no_softmax scripted s = Ok 0) /\
  (forall fuel g s,
     generate any_model no_softmax scripted (itos (build corpus3)) fuel g = Finished s ->
     boundary_terminated (gen_name s)) /\
  (forall fuel num_names g lines g',
     generate_names any_model no_softmax scripted (itos (build corpus3)) fuel num_names g [] =
       Finished (lines, g') ->
     Forall boundary_terminated lines /\ length lines = num_names).
Proof.
  assert (H : boundary_free corpus3).
  { unfold boundary_free. apply (bool_decide_unpack _). by vm_compute. }
  split; [exact H|].
  exact (sampling_ends_at_boundary any_model no_softmax scripted corpus3 H).
Defined.

(** C1 (as stated) fails: when the codes 1, 2, 0 are drawn over the
    vocabulary of "ab", "ba", "aab", the loop ends with the name "ab.",
    which contains the boundary symbol. *)
Lemma sampled_name_contains_boundary :
  generate any_model no_softmax scripted (itos (build corpus3)) 10 [1; 2; 0] =
    Finished {| ctx := [1; 2; 0]; gen_name := "ab."; rng := [] |} /\
  boundary ∈ list_ascii_of_string "ab.".
Proof. split; [by vm_compute|]. apply (bool_decide_unpack _). by vm_compute. Qed.

(** Two names printed by the outer loop. *)
Example generate_names_scripted :
  generate_names any_model no_softmax scripted (itos (build corpus3)) 10 2 [2; 1; 0; 0; 1]
    [] = Finished (["ba."; "."], [1]).
Proof. by vm_compute. Qed.

Lemma always_one_never_boundary :
  (forall x, exists out, any_model x = Ok out) /\
  (forall probas g', exists char,
     itos (build corpus3) !! (always_one probas g').1 = Some char /\ char <> boundary).
Proof.
  split; [intros x; by eexists|].
  intros probas g'. exists "a"%char. split; [by vm_compute | done].
Qed.

Lemma sampling_has_no_cap_witness :
  (forall x, exists out, any_model x = Ok out) /\
  (forall probas g', exists char,
     itos (build corpus3) !! (always_one probas g').1 = Some char /\ char <> boundary) /\
  exists s,
    generate any_model no_softmax always_one (itos (build corpus3)) 50 tt = Running s /\
    String.length (gen_name s) = 50%nat /\
    boundary ∉ list_ascii_of_string (gen_name s).
Proof.
  destruct always_one_never_boundary as [H1 H2].
  split; [exact H1|]. split; [exact H2|].
  exact (sampling_has_no_cap any_model no_softmax always_one (itos (build corpus3))
           50 tt H1 H2).
Defined.

(** C2 (as stated) fails: with a sampler that always draws code 1 (the
    character 'a'), no cap on the number of iterations stops the loop, and
    no error is raised: after every number of iterations it is still
    running. *)
Lemma sampling_exceeds_every_cap :
  ~ exists max_length_cap : nat,
      halted (generate any_model no_softmax always_one (itos (build corpus3))
                max_length_cap tt).
Proof.
  intros [cap Hcap]. destruct always_one_never_boundary as [H1 H2].
  destruct (while_true_never_boundary any_model no_softmax always_one
              (itos (build corpus3)) cap
              {| ctx := [0; 0; 0]; gen_name := EmptyString; rng := tt |} H1 H2) as [s Hs].
  unfold generate in Hcap. by rewrite Hs in Hcap.
Qed.

End SamplerTheorems.

(** ** More on the vocabulary *)

Module VocabMore.
Import Vocab VocabFacts VocabTheorems Inputs.

(** [stoi[c]] raises KeyError exactly for a character that is neither the
    boundary symbol nor a character of the corpus. *)
Theorem encode_KeyError_iff (words : list string) (c : ascii) :
  encode (build words) c = Raise KeyError <-> c <> boundary /\ c ∉ join words.
Proof.
  unfold encode. rewrite getitem_KeyError. split.
  - intros Hn. split.
    + intros ->. by rewrite stoi_lookup_boundary in Hn.
    + intros Hin. destruct (stoi_total words c) as [i Hi]; [by right|]. congruence.
  - intros [Hc Hn]. by apply stoi_lookup_None.
Qed.

(** Whatever the corpus holds, also the boundary symbol itself, a character
    that encodes decodes back to itself. *)
Theorem decode_encode (words : list string) (c : ascii) (i : Z) :
  encode (build words) c = Ok i -> decode (build words) i = Ok c.
Proof.
  unfold encode, decode. rewrite !getitem_Ok. intros Hi.
  destruct (decide (c = boundary)) as [->|Hc].
  - rewrite stoi_lookup_boundary in Hi. injection Hi as <-. by rewrite itos_lookup.
  - destruct (decide (c ∈ join words)) as [Hin|Hout].
    + apply elem_of_chars, list_elem_of_lookup in Hin as [k Hk].
      rewrite (stoi_lookup_char _ k) in Hi by done. injection Hi as <-.
      rewrite itos_lookup. rewrite decide_False by lia.
      apply lookup_lt_Some in Hk as Hlt. rewrite decide_True by lia.
      by replace (Z.to_nat (1 + Z.of_nat k - 1)) with k by lia.
    + by rewrite stoi_lookup_None in Hi.
Qed.

Lemma decode_encode_witness :
  encode (build ["a.b"]) "."%char = Ok 0 /\ decode (build ["a.b"]) 0 = Ok "."%char.
Proof.
  assert (H : encode (build ["a.b"]) "."%char = Ok 0) by (by vm_compute).
  split; [exact H|]. exact (decode_encode ["a.b"] "."%char 0 H).
Defined.

Lemma itos_stoi (words : list string) (i : Z) (c : ascii) :
  boundary_free words ->
  itos (build words) !! i = Some c -> stoi (build words) !! c = Some i.
Proof.
  intros Hbf Hc. rewrite itos_lookup in Hc. case_decide as H0.
  - injection Hc as <-. subst. apply stoi_lookup_boundary.
  - case_decide as H1; [|done].
    rewrite (stoi_lookup_char words (Z.to_nat (i - 1)) c); [f_equal; lia | | done].
    intros ->. apply Hbf, elem_of_chars. by eapply list_elem_of_lookup_2.
Qed.

(** For a corpus without the boundary symbol the other direction holds
    too: every code of [0, V-1] decodes to a character that encodes back to
    that code, so no two codes share a character. *)
Theorem encode_decode (words : list string) (i : Z) :
  boundary_free words -> 0 <= i < size (build words) ->
  exists c, decode (build words) i = Ok c /\ encode (build words) c = Ok i.
Proof.
  intros Hbf Hi. apply decode_defined_iff in Hi as [c Hc]. exists c. split; [done|].
  unfold decode in Hc. apply getitem_Ok in Hc. unfold encode. apply getitem_Ok.
  rewrite itos_lookup in Hc.
  case_decide as H0.
  - injection Hc as <-. subst. apply stoi_lookup_boundary.
  - case_decide as H1; [|done].
    rewrite (stoi_lookup_char words (Z.to_nat (i - 1)) c); [f_equal; lia | | done].
    intros ->. apply Hbf, elem_of_chars. by eapply list_elem_of_lookup_2.
Qed.

Lemma encode_decode_witness :
  boundary_free corpus3 /\ 0 <= 2 < size (build corpus3) /\
  exists c, decode (build corpus3) 2 = Ok c /\ encode (build corpus3) c = Ok 2.
Proof.
  assert (H1 : boundary_free corpus3).
  { unfold boundary_free. apply (bool_decide_unpack _). by vm_compute. }
  assert (H2 : 0 <= 2 < size (build corpus3)) by (by vm_compute).
  split; [exact H1|]. split; [exact H2|]. exact (encode_decode corpus3 2 H1 H2).
Defined.

(** With the boundary symbol in the corpus that direction is lost: code 1
    decodes to '.', which encodes as 0. *)
Example encode_decode_lost :
  decode (build ["a.b"]) 1 = Ok "."%char /\ encode (build ["a.b"]) "."%char = Ok 0.
Proof. by vm_compute. Qed.

(** V is the number of distinct characters of the corpus plus one. *)
Theorem size_distinct_characters (words : list string) :
  size (build words) = Z.of_nat (base.size (char_set words)) + 1.
Proof. rewrite size_build. unfold chars. by rewrite sorted_perm. Qed.

(** An empty corpus is not refused: it gives the vocabulary of the boundary
    symbol alone. *)
Example build_empty_corpus :
  stoi (build []) = {[ boundary := 0 ]} /\ itos (build []) = {[ 0 := boundary ]} /\
  size (build []) = 1.
Proof. by vm_compute. Qed.

End VocabMore.

(** ** More on the example builder *)

Module ExamplesMore.
Import Vocab VocabFacts VocabTheorems VocabMore Examples ExamplesFacts Inputs More.

(** The inner loop either finds every character in [stoi], or stops with
    KeyError at the first one it does not find. *)
Lemma char_loop_cases (stoi : gmap ascii Z) (cs : list ascii) (s : acc) :
  (Forall (fun c => is_Some (stoi !! c)) cs /\
   exists s', for_each (char_body stoi) s cs = Ok s') \/
  (~ Forall (fun c => is_Some (stoi !! c)) cs /\
   for_each (char_body stoi) s cs = Raise KeyError).
Proof.
  revert s. induction cs as [|c cs IH]; intros s.
  - left. split; [constructor | by eexists].
  - cbn [for_each]. destruct (stoi !! c) as [i|] eqn:E.
    + rewrite (char_body_Ok _ _ _ _ E). cbn [mbind result_bind].
      destruct (IH {| X := X s ++ [ctx s]; Y := Y s ++ [i];
                      ctx := drop 1 (ctx s) ++ [i] |}) as [[HF Hs]|[HF Hs]].
      * left. split; [|done]. constructor; [by rewrite E | done].
      * right. split; [|done]. intros H. apply Forall_cons in H as [_ H]. by apply HF.
    + right. split.
      * intros H. apply Forall_cons in H as [[i Hi] _]. congruence.
      * unfold char_body. apply getitem_KeyError in E. by rewrite E.
Qed.

Lemma word_body_eq (stoi : gmap ascii Z) (ctx_len : Z) (XY : list (list Z) * list Z)
    (w : string) :
  word_body stoi ctx_len XY w =
  (s' ← for_each (char_body stoi)
          {| X := XY.1; Y := XY.2; ctx := replicate (Z.to_nat ctx_len) 0 |}
          (list_ascii_of_string (w +:+ "."));
   Ok (X s', Y s')).
Proof. done. Qed.

Lemma word_loop_cases (stoi : gmap ascii Z) (ctx_len : Z) (words : list string)
    (XY : list (list Z) * list Z) :
  (all_keys stoi words /\
   exists XY', for_each (word_body stoi ctx_len) XY words = Ok XY') \/
  (~ all_keys stoi words /\
   for_each (word_body stoi ctx_len) XY words = Raise KeyError).
Proof.
  unfold all_keys. revert XY. induction words as [|w words IH]; intros XY.
  - left. split; [constructor | by eexists].
  - cbn [for_each]. rewrite word_body_eq.
    destruct (char_loop_cases stoi (list_ascii_of_string (w +:+ "."))
                {| X := XY.1; Y := XY.2;
                   ctx := replicate (Z.to_nat ctx_len) 0 |}) as [[HF [s' Hs]]|[HF Hs]].
    + rewrite Hs. cbn [mbind result_bind].
      destruct (IH (X s', Y s')) as [[HF' Hs']|[HF' Hs']].
      * left. split; [by constructor | done].
      * right. split; [|done]. intros H. apply Forall_cons in H as [_ H]. by apply HF'.
    + rewrite Hs. right. split; [|done].
      intros H. apply Forall_cons in H as [H _]. by apply HF.
Qed.

(** With any dictionary [stoi], the example builder returns exactly when
    every character of every name, and the boundary symbol appended to it,
    is a key of [stoi]; otherwise it raises KeyError. *)
Theorem build_examples_KeyError_iff (stoi : gmap ascii Z) (ctx_len : Z)
    (words : list string) :
  ((exists XY, build_examples stoi ctx_len words = Ok XY) <-> all_keys stoi words) /\
  (build_examples stoi ctx_len words = Raise KeyError <-> ~ all_keys stoi words).
Proof.
  unfold build_examples.
  destruct (word_loop_cases stoi ctx_len words ([], [])) as [[HF [XY Hs]]|[HF Hs]];
    rewrite Hs; split; split; try done; eauto.
  by intros [XY' ?].
Qed.

(** A name with a character the dictionary lacks stops the builder. *)
Example build_examples_unknown_character :
  build_examples (stoi (build ["ab"])) 3 ["ab"; "cab"] = Raise KeyError.
Proof. by vm_compute. Qed.

Lemma framed_decodes (words : list string) (w : string) (codes : list Z) :
  framed (stoi (build words)) w codes ->
  Forall2 (fun y c => decode (build words) y = Ok c) codes
    (list_ascii_of_string (w +:+ ".")).
Proof.
  intros (body & _ & _ & HF). apply Forall2_flip.
  eapply Forall2_impl; [exact HF|]. intros c i Hi. cbv beta.
  apply decode_encode. unfold encode. by apply getitem_Ok.
Qed.

(** Decoded one by one, the targets spell the corpus: every name followed
    by the boundary symbol, in corpus order.  This holds for every corpus,
    with or without the boundary symbol in it. *)
Theorem targets_spell_corpus (words : list string) (ctx_len : Z) :
  exists (X : list (list Z)) (Y : list Z),
    build_examples (stoi (build words)) ctx_len words = Ok (X, Y) /\
    Forall2 (fun y c => decode (build words) y = Ok c) Y
      (join ((fun w => w +:+ ".") <$> words)).
Proof.
  destruct (framed_corpus words) as (codess & HF & _).
  eexists _, _. split; [unfold build_examples; by rewrite (build_loop _ _ _ _ _ HF)|].
  cbn [snd app]. unfold join. rewrite <- list_fmap_compose.
  assert (H : forall ws, Forall2 (framed (stoi (build words))) ws codess ->
    Forall2 (fun y c => decode (build words) y = Ok c) (concat codess)
      (concat (list_ascii_of_string ∘ (fun w => w +:+ ".") <$> ws))); [|by apply H].
  clear HF. intros ws HF.
  induction HF as [|w codes ws codess Hw HF IH]; csimpl; [constructor|].
  apply Forall2_app; [by apply framed_decodes | done].
Qed.

Lemma windows_closed_form (c : list Z) (codes : list Z) (i : nat) :
  (1 <= length c)%nat -> (i < length codes)%nat ->
  windows c codes !! i = Some (drop i (c ++ take i codes)).
Proof.
  revert c i. induction codes as [|t codes IH]; intros c i Hc Hi; simpl in Hi; [lia|].
  destruct i as [|i]; simpl.
  - by rewrite app_nil_r.
  - rewrite IH; [|rewrite length_app; simpl; lia | lia].
    destruct c as [|a c]; simpl in *; [lia|]. by rewrite drop_0, <- app_assoc.
Qed.

(** With a context length C of at least 1, the context of the [i]-th
    example of a name is the last C entries of C zeros followed by the
    targets of the examples before it: the C characters that precede the
    target in the name, padded on the left with the boundary code. *)
Theorem context_is_preceding_codes (words : list string) (ctx_len : Z) (word : string) :
  word ∈ words -> 1 <= ctx_len ->
  exists (X : list (list Z)) (Y : list Z),
    name_examples (stoi (build words)) ctx_len word = Ok (X, Y) /\
    forall i : nat, (i < length Y)%nat ->
      X !! i = Some (drop i (replicate (Z.to_nat ctx_len) 0 ++ take i Y)).
Proof.
  intros Hw HC.
  destruct (framed_exists words word) as (codes & Hc & _); [by apply join_elem_of|].
  eexists _, _. split; [unfold name_examples; by rewrite (word_body_framed _ _ _ _ _ Hc)|].
  cbn [fst snd app]. intros i Hi. apply windows_closed_form; [|done].
  rewrite length_replicate. lia.
Qed.

Lemma context_is_preceding_codes_witness :
  "aab" ∈ corpus3 /\ 1 <= 3 /\
  exists (X : list (list Z)) (Y : list Z),
    name_examples (stoi (build corpus3)) 3 "aab" = Ok (X, Y) /\
    forall i : nat, (i < length Y)%nat ->
      X !! i = Some (drop i (replicate (Z.to_nat 3) 0 ++ take i Y)).
Proof.
  assert (H1 : "aab" ∈ corpus3) by (apply (bool_decide_unpack _); by vm_compute).
  assert (H2 : 1 <= 3) by lia.
  split; [exact H1|]. split; [exact H2|].
  exact (context_is_preceding_codes corpus3 3 "aab" H1 H2).
Defined.

Lemma framed_of_elem (stoi : gmap ascii Z) (words : list string)
    (codess : list (list Z)) (w : string) :
  Forall2 (framed stoi) words codess -> w ∈ words ->
  exists codes, codes ∈ codess /\ framed stoi w codes.
Proof.
  intros HF Hw. apply list_elem_of_lookup in Hw as [k Hk].
  destruct (Forall2_lookup_l _ _ _ _ _ HF Hk) as (codes & Hc & Hf).
  exists codes. split; [by eapply list_elem_of_lookup_2 | done].
Qed.

(** A context length below 1 is not refused by the builder: its contexts
    are then an empty context at the start of each name and contexts of
    one code after it.  Nor does [torch.tensor(X)] refuse them: it reads
    the shape off the empty first context and returns a float tensor of
    shape (T + N, 0) that holds none of the codes. *)
Theorem nonpositive_ctx_len_empty_tensor (words : list string) (ctx_len : Z)
    (word : string) :
  ctx_len <= 0 -> word ∈ words -> word <> EmptyString ->
  exists (X : list (list Z)) (Y : list Z),
    build_examples (stoi (build words)) ctx_len words = Ok (X, Y) /\
    (exists t, [t] ∈ X) /\
    torch_tensor2 X = Ok (Tensor [(total_chars words + length words)%nat; 0%nat] []) /\
    torch_dtype2 X = float32.
Proof.
  intros HC Hw Hne.
  destruct (framed_corpus words) as (codess & HF & _).
  eexists _, _. split; [unfold build_examples; by rewrite (build_loop _ _ _ _ _ HF)|].
  cbn [fst app]. replace (Z.to_nat ctx_len) with 0%nat by lia. cbn [replicate].
  destruct (framed_of_elem _ _ _ _ HF Hw) as (codes & Hin & body & -> & Hb & _).
  assert (Hone : exists t, [t] ∈ concat (windows [] <$> codess)).
  { destruct body as [|t body]; [by destruct word|]. exists t.
    apply (elem_of_concat_2 _ (windows [] ((t :: body) ++ [0]))).
    - simpl. destruct body; simpl; set_solver.
    - by apply list_elem_of_fmap_2. }
  split; [done|].
  assert (Hhd : exists rows, concat (windows [] <$> codess) = [] :: rows).
  { inversion HF as [|w0 codes0 ws codess' (body0 & -> & _) _]; subst; [by inversion Hin|].
    csimpl. destruct body0; simpl; eauto. }
  destruct Hhd as [rows Hrows].
  pose proof (ExamplesTheorems.length_concat_windows [] codess) as Hlen.
  rewrite (ExamplesTheorems.length_concat_framed _ _ _ HF) in Hlen.
  rewrite Hrows in Hlen |- *. unfold torch_tensor2, torch_dtype2.
  by rewrite Hlen.
Qed.

Lemma nonpositive_ctx_len_empty_tensor_witness :
  0 <= 0 /\ "ab" ∈ corpus3 /\ "ab" <> EmptyString /\
  exists (X : list (list Z)) (Y : list Z),
    build_examples (stoi (build corpus3)) 0 corpus3 = Ok (X, Y) /\
    (exists t, [t] ∈ X) /\
    torch_tensor2 X = Ok (Tensor [(total_chars corpus3 + length corpus3)%nat; 0%nat] []) /\
    torch_dtype2 X = float32.
Proof.
  assert (H1 : 0 <= 0) by lia.
  assert (H2 : "ab" ∈ corpus3) by (apply (bool_decide_unpack _); by vm_compute).
  assert (H3 : "ab" <> EmptyString) by done.
  split; [exact H1|]. split; [exact H2|]. split; [exact H3|].
  exact (nonpositive_ctx_len_empty_tensor corpus3 0 "ab" H1 H2 H3).
Defined.

(** With a first context that is not empty, a context of another length
    is refused. *)
Example torch_tensor2_ragged :
  torch_tensor2 [[0; 0]; [1]] = Raise ValueError /\
  torch_tensor2 [[]; [1]] = Ok (Tensor [2%nat; 0%nat] []).
Proof. by vm_compute. Qed.

End ExamplesMore.

(** ** More on the model and the examples it is given *)

Module PipelineMore.
Import Vocab VocabFacts VocabTheorems Examples ExamplesFacts ExamplesTheorems
  ExamplesMore MLPLM MLPLMFacts PipelineTheorems Inputs.

(** The examples of a corpus in closed form, with their codes in range. *)
Lemma examples_closed (words : list string) (ctx_len : Z) :
  exists codess,
    Forall2 (framed (stoi (build words))) words codess /\
    Forall (Forall (fun i => 0 <= i < size (build words))) codess /\
    build_examples (stoi (build words)) ctx_len words =
      Ok (concat (windows (replicate (Z.to_nat ctx_len) 0) <$> codess), concat codess).
Proof.
  destruct (framed_corpus words) as (codess & HF & HR).
  exists codess. split; [done|]. split; [done|].
  unfold build_examples. by rewrite (build_loop _ _ _ _ _ HF).
Qed.

Lemma elem_of_concat_1 {A : Type} (x : A) (ls : list (list A)) :
  x ∈ concat ls -> exists l, x ∈ l /\ l ∈ ls.
Proof.
  induction ls as [|l ls IH]; simpl; [by intros ?%elem_of_nil|].
  rewrite elem_of_app. intros [H|H].
  - exists l. split; [done | by left].
  - destruct (IH H) as (l' & ? & ?). exists l'. split; [done | by right].
Qed.

(** Every target but the last of a name is shifted into a context. *)
Lemma windows_contains (c : list Z) (codes : list Z) (j : nat) (t : Z) :
  codes !! j = Some t -> (S j < length codes)%nat ->
  exists r, r ∈ windows c codes /\ t ∈ r.
Proof.
  revert c j. induction codes as [|t0 codes IH]; intros c j Hj Hlen; [done|].
  destruct j as [|j]; simpl in *.
  - injection Hj as ->. destruct codes as [|t1 codes]; simpl in *; [lia|].
    exists (drop 1 c ++ [t]). split; [set_solver | set_solver].
  - destruct (IH (drop 1 c ++ [t0]) j Hj) as (r & Hr & Ht); [lia|].
    exists r. split; [by right | done].
Qed.

Section Net.
Context {R : Type} (R0 : R) (Radd Rmul Rmax : R -> R -> R).

(** The forward pass over all the examples of a corpus (the notebook's
    "dummy forward pass"): with a non-empty corpus, a context length C of at
    least 1 and a model built for contexts of length C whose [vocab_size]
    is at least V, it returns one row of [vocab_size] logits per example,
    T + N rows in all. *)
Theorem forward_over_examples (words : list string) (ctx_len : Z) (Vm D : nat)
    (iv : @initial_values R) :
  words <> [] -> 1 <= ctx_len -> size (build words) <= Z.of_nat Vm ->
  exists (X : list (list Z)) (Y : list Z) (t : tensor Z) (out : tensor R),
    build_examples (stoi (build words)) ctx_len words = Ok (X, Y) /\
    torch_tensor2 X = Ok t /\
    forward R0 Radd Rmul Rmax (init Vm D (Z.to_nat ctx_len) iv) t = Ok out /\
    shape out = [(total_chars words + length words)%nat; Vm].
Proof.
  intros Hne HC HV.
  destruct (examples_closed words ctx_len) as (codess & HF & HR & Hb).
  destruct (examples_tensor (stoi (build words)) words (Z.to_nat ctx_len) codess)
    as (Hx & Hlen & Ht); [lia | done | done |].
  eexists _, _, _, _. split; [exact Hb|]. split; [exact Ht|].
  rewrite forward_batch_rows; [split; [done|] | done |].
  - cbn [shape]. by rewrite length_concat_windows, (length_concat_framed _ _ _ HF).
  - apply Forall_forall. intros r Hr. split.
    + rewrite Forall_forall in Hlen. by apply Hlen.
    + assert (HX : Forall (Forall (fun i => 0 <= i < size (build words)))
                     (concat (windows (replicate (Z.to_nat ctx_len) 0) <$> codess))).
      { apply Forall_concat, Forall_fmap. eapply Forall_impl; [exact HR|].
        intros codes Hc. cbn [compose]. apply windows_Forall; [|done].
        apply Forall_replicate. pose proof (size_build words). lia. }
      rewrite Forall_forall in HX. eapply Forall_impl; [by apply HX|].
      intros i Hi. cbv beta in *. lia.
Qed.

(** One index outside the table is enough for the lookup to raise. *)
Lemma embedding_rows_IndexError (e : @Embedding R) (idxs : list Z) (acc : list (list R)) :
  ~ Forall (fun i => 0 <= i < Z.of_nat (length (emb_weight e))) idxs ->
  for_each (fun acc i => row ← embedding_row e i; Ok (acc ++ [row])) acc idxs =
  Raise IndexError.
Proof.
  revert acc. induction idxs as [|i idxs IH]; intros acc Hn.
  - destruct Hn. constructor.
  - cbn [for_each].
    destruct (decide (0 <= i < Z.of_nat (length (emb_weight e)))) as [Hi|Hi].
    + rewrite embedding_row_Ok by done. cbn [mbind result_bind]. apply IH.
      intros H. apply Hn. by constructor.
    + unfold embedding_row. by rewrite decide_False.
Qed.

Lemma forward_IndexError (m : @model R) (x : tensor Z) :
  ~ Forall (fun i => 0 <= i < Z.of_nat (length (emb_weight (embedding m)))) (data x) ->
  forward R0 Radd Rmul Rmax m x = Raise IndexError.
Proof.
  intros Hn. unfold forward, Embedding_forward.
  by rewrite embedding_rows_IndexError.
Qed.

(** A model whose [vocab_size] is smaller than V cannot take the examples:
    for a non-empty corpus without the boundary symbol and a context length
    of at least 1, the largest code V - 1 occurs in some context, and the
    forward pass over the examples raises IndexError. *)
Theorem forward_small_table_IndexError (words : list string) (ctx_len : Z) (Vm D C : nat)
    (iv : @initial_values R) :
  boundary_free words -> words <> [] -> 1 <= ctx_len ->
  Z.of_nat Vm < size (build words) ->
  exists (X : list (list Z)) (Y : list Z) (t : tensor Z),
    build_examples (stoi (build words)) ctx_len words = Ok (X, Y) /\
    torch_tensor2 X = Ok t /\
    forward R0 Radd Rmul Rmax (init Vm D C iv) t = Raise IndexError.
Proof.
  intros Hbf Hne HC HV.
  destruct (examples_closed words ctx_len) as (codess & HF & HR & Hb).
  destruct (examples_tensor (stoi (build words)) words (Z.to_nat ctx_len) codess)
    as (Hx & Hlen & Ht); [lia | done | done |].
  eexists _, _, _. split; [exact Hb|]. split; [exact Ht|].
  apply forward_IndexError. cbn [init embedding emb_weight batch data].
  rewrite length_matrix.
  set (Xs := concat (windows (replicate (Z.to_nat ctx_len) 0) <$> codess)) in *.
  assert (Hbig : exists r i, r ∈ Xs /\ i ∈ r /\ i = size (build words) - 1).
  { rewrite size_build.
    destruct (chars words !! (length (chars words) - 1)%nat) as [c|] eqn:Hk.
    - (* the last character of [chars] has the largest code *)
      apply lookup_lt_Some in Hk as Hlt.
      assert (Hc : c <> boundary).
      { intros ->. apply Hbf, elem_of_chars. by eapply list_elem_of_lookup_2. }
      pose proof (stoi_lookup_char words _ c Hc Hk) as Hcode.
      assert (Hin : c ∈ join words).
      { apply elem_of_chars. by eapply list_elem_of_lookup_2. }
      unfold join in Hin. apply elem_of_concat_1 in Hin as (l & Hcl & Hl).
      apply list_elem_of_fmap in Hl as (w & -> & Hw).
      destruct (framed_of_elem _ _ _ _ HF Hw) as (codes & Hcodes & body & -> & Hb' & Hf).
      rewrite list_ascii_of_string_app in Hf.
      apply Forall2_app_inv_l in Hf as (body' & last' & Hf1 & Hf2 & Happ).
      apply app_inj_2 in Happ as [<- <-];
        [|apply Forall2_length in Hf2; by rewrite <- Hf2].
      apply list_elem_of_lookup in Hcl as [j Hj].
      destruct (Forall2_lookup_l _ _ _ _ _ Hf1 Hj) as (i & Hi & Hci).
      rewrite Hcode in Hci. injection Hci as <-.
      destruct (windows_contains (replicate (Z.to_nat ctx_len) 0) (body ++ [0]) j
                  (1 + Z.of_nat (length (chars words) - 1))) as (r & Hr & Hir).
      { by rewrite lookup_app_l by (by eapply lookup_lt_Some). }
      { rewrite length_app. simpl. apply lookup_lt_Some in Hi. lia. }
      exists r, (1 + Z.of_nat (length (chars words) - 1)). split; [|split; [done|lia]].
      unfold Xs. eapply elem_of_concat_2; [exact Hr|]. by apply list_elem_of_fmap_2.
    - (* no characters: the code is 0, in the first context *)
      apply lookup_ge_None in Hk.
      inversion HF as [|w codes ws codess' (body & -> & _) _]; subst; [done|].
      exists (replicate (Z.to_nat ctx_len) 0), 0. split; [|split; [|lia]].
      + unfold Xs. csimpl. destruct body; simpl; set_solver.
      + destruct (Z.to_nat ctx_len) as [|n] eqn:En; [lia|]. simpl. set_solver. }
  destruct Hbig as (r & i & Hr & Hi & ->).
  intros HF'. apply Forall_concat in HF'.
  - rewrite Forall_forall in HF'. specialize (HF' _ Hr).
    rewrite Forall_forall in HF'. specialize (HF' _ Hi). cbv beta in HF'. lia.
Qed.

Lemma forward_wrong_width (V D C C' : nat) (iv : @initial_values R)
    (contexts : list (list Z)) :
  C' <> C -> (1 <= D)%nat -> contexts <> [] ->
  Forall (fun c => length c = C' /\ Forall (fun i => 0 <= i < Z.of_nat V) c) contexts ->
  forward R0 Radd Rmul Rmax (init V D C iv) (batch C' contexts) = Raise RuntimeError.
Proof.
  intros HCC HD Hne Hall.
  set (E := matrix V D (init_embedding iv)).
  set (row := fun c : list Z => concat (row_of E <$> c)).
  assert (Hrow : Forall (fun r => length r = (D * C')%nat) (row <$> contexts)).
  { apply Forall_fmap. eapply Forall_impl; [exact Hall|]. intros c [Hc Hr]. simpl.
    unfold row. rewrite (length_concat_uniform D).
    - rewrite length_fmap. lia.
    - apply Forall_fmap. eapply Forall_impl; [exact Hr|]. intros i Hi. simpl.
      unfold row_of. destruct (E !! Z.to_nat i) as [r|] eqn:Er.
      + simpl. by eapply matrix_row_length.
      + apply lookup_ge_None in Er. unfold E in Er. rewrite length_matrix in Er.
        cbv beta in Hi. lia. }
  unfold forward, batch. rewrite Embedding_forward_Ok; cbn [data shape].
  2:{ cbn [init embedding emb_weight]. rewrite length_matrix. apply Forall_concat.
      eapply Forall_impl; [exact Hall|]. by intros c [_ Hr]. }
  cbn [init embedding emb_weight embedding_dim fc]. fold E.
  rewrite concat_fmap_concat. fold row.
  cbn [mbind result_bind size0 shape app].
  unfold view_infer. cbn [data].
  rewrite (length_concat_uniform _ _ Hrow), length_fmap.
  rewrite (Nat.mul_comm (length contexts)).
  assert (Hn : length contexts <> 0%nat) by (by destruct contexts).
  rewrite decide_False by done.
  rewrite Nat.Div0.mod_mul, decide_True by done.
  rewrite Nat.div_mul by done.
  unfold Sequential_forward. cbn [for_each layer_forward mbind result_bind].
  unfold Linear_forward. cbn [shape last new_Linear in_features].
  rewrite decide_False; [done|]. nia.
Qed.

(** A batch whose contexts do not have the length the model was built for
    is refused by the first linear layer with a shape error. *)
Theorem forward_wrong_context_length (V D C C' : nat) (iv : @initial_values R)
    (contexts : list (list Z)) :
  C' <> C -> (1 <= D)%nat -> contexts <> [] ->
  Forall (fun c => length c = C' /\ Forall (fun i => 0 <= i < Z.of_nat V) c) contexts ->
  forward R0 Radd Rmul Rmax (init V D C iv) (batch C' contexts) = Raise RuntimeError.
Proof. intros. by apply forward_wrong_width. Qed.

(** The call of the sampling loop, for a context of the right length. *)
Lemma forward_one_context (V D C : nat) (iv : @initial_values R) (context : list Z) :
  length context = C -> Forall (fun i => 0 <= i < Z.of_nat V) context ->
  forward R0 Radd Rmul Rmax (init V D C iv) (unsqueeze0 (torch_tensor1 context)) =
  Ok (Tensor [1%nat; V] (logits_of R0 Radd Rmul Rmax V D C iv context)).
Proof.
  intros Hlen Hr.
  pose proof (forward_batch_rows R0 Radd Rmul Rmax V D C iv [context]) as H.
  unfold batch in H. cbn [length concat fmap list_fmap] in H.
  rewrite !app_nil_r in H. unfold unsqueeze0, torch_tensor1. cbn [shape data].
  rewrite Hlen. apply H; [done|]. by repeat constructor.
Qed.

End Net.

Lemma forward_small_table_IndexError_witness :
  boundary_free corpus3 /\ corpus3 <> [] /\ 1 <= 3 /\
  Z.of_nat 2 < size (build corpus3) /\
  exists (X : list (list Z)) (Y : list Z) (t : tensor Z),
    build_examples (stoi (build corpus3)) 3 corpus3 = Ok (X, Y) /\
    torch_tensor2 X = Ok t /\
    forward 0 Z.add Z.mul Z.max (init 2 2 3 int_values) t = Raise IndexError.
Proof.
  assert (H0 : boundary_free corpus3).
  { unfold boundary_free. apply (bool_decide_unpack _). by vm_compute. }
  assert (H1 : corpus3 <> []) by done.
  assert (H2 : 1 <= 3) by lia.
  assert (H3 : Z.of_nat 2 < size (build corpus3)) by (by vm_compute).
  split; [exact H0|]. split; [exact H1|]. split; [exact H2|]. split; [exact H3|].
  exact (forward_small_table_IndexError 0 Z.add Z.mul Z.max corpus3 3 2 2 3 int_values
           H0 H1 H2 H3).
Defined.

Lemma forward_wrong_context_length_witness :
  2%nat <> 3%nat /\ (1 <= 2)%nat /\ [[0; 1]; [2; 0]] <> [] /\
  Forall (fun c => length c = 2%nat /\ Forall (fun i => 0 <= i < Z.of_nat 27) c)
    [[0; 1]; [2; 0]] /\
  forward 0 Z.add Z.mul Z.max (init 27 2 3 int_values) (batch 2 [[0; 1]; [2; 0]]) =
    Raise RuntimeError.
Proof.
  assert (H1 : 2%nat <> 3%nat) by lia.
  assert (H2 : (1 <= 2)%nat) by lia.
  assert (H3 : [[0; 1]; [2; 0]] <> ([] : list (list Z))) by done.
  assert (H4 : Forall (fun c => length c = 2%nat /\
                         Forall (fun i => 0 <= i < Z.of_nat 27) c) [[0; 1]; [2; 0]]).
  { repeat constructor; simpl; lia. }
  split; [exact H1|]. split; [exact H2|]. split; [exact H3|]. split; [exact H4|].
  exact (forward_wrong_context_length 0 Z.add Z.mul Z.max 27 2 3 2 int_values _
           H1 H2 H3 H4).
Defined.

Lemma forward_over_examples_witness :
  corpus3 <> [] /\ 1 <= 3 /\ size (build corpus3) <= Z.of_nat 27 /\
  exists (X : list (list Z)) (Y : list Z) (t : tensor Z) (out : tensor Z),
    build_examples (stoi (build corpus3)) 3 corpus3 = Ok (X, Y) /\
    torch_tensor2 X = Ok t /\
    forward 0 Z.add Z.mul Z.max (init 27 2 (Z.to_nat 3) int_values) t = Ok out /\
    shape out = [(total_chars corpus3 + length corpus3)%nat; 27%nat].
Proof.
  assert (H1 : corpus3 <> []) by done.
  assert (H2 : 1 <= 3) by lia.
  assert (H3 : size (build corpus3) <= Z.of_nat 27) by (by vm_compute).
  split; [exact H1|]. split; [exact H2|]. split; [exact H3|].
  exact (forward_over_examples 0 Z.add Z.mul Z.max corpus3 3 27 2 int_values H1 H2 H3).
Defined.

End PipelineMore.

(** ** More on the sampler *)

Module SamplerMore.
Import Vocab VocabFacts VocabTheorems VocabMore Examples ExamplesFacts
  MLPLM MLPLMFacts PipelineMore Sampler SamplerFacts Inputs.

Lemma last_window_snoc (c codes : list Z) (i : Z) :
  last_window c (codes ++ [i]) = drop 1 (last_window c codes) ++ [i].
Proof. revert c. induction codes as [|t codes IH]; intros c; simpl; [done | apply IH]. Qed.

Lemma windows_snoc_last (c codes : list Z) (t : Z) :
  windows c (codes ++ [t]) !! length codes = Some (last_window c codes).
Proof. revert c. induction codes as [|t0 codes IH]; intros c; simpl; [done | apply IH]. Qed.

Section Loop.
Context {R G : Type}.
Context (model : tensor Z -> result (tensor R))
        (softmax : tensor R -> tensor R)
        (multinomial : tensor R -> G -> Z * G)
        (itos : gmap Z ascii).

(** One iteration, with the state it leaves spelled out. *)
Lemma loop_body_state (s : @state G) (c : control) :
  loop_body model softmax multinomial itos s = Ok c ->
  exists idx char g',
    itos !! idx = Some char /\
    c = (if decide (char = boundary) then Break else Continue)
          {| ctx := drop 1 (ctx s) ++ [idx];
             gen_name := gen_name s +:+ String char EmptyString;
             rng := g' |}.
Proof.
  unfold loop_body.
  destruct (model (unsqueeze0 (torch_tensor1 (ctx s)))) as [out|e];
    cbn [mbind result_bind]; [|done].
  unfold getitem.
  destruct (itos !! (multinomial (softmax out) (rng s)).1) as [char|] eqn:E;
    cbn [mbind result_bind]; [|done].
  intros [= <-]. eexists _, char, _. split; [exact E|]. by case_decide.
Qed.

(** A property of the state that every iteration keeps holds of the state
    the loop is in, or ends in, after any number of iterations. *)
Lemma while_true_invariant (P : @state G -> Prop) (fuel : nat) (s s' : @state G) :
  (forall s1 s2, P s1 ->
     loop_body model softmax multinomial itos s1 = Ok (Continue s2) \/
     loop_body model softmax multinomial itos s1 = Ok (Break s2) -> P s2) ->
  P s ->
  while_true model softmax multinomial itos fuel s = Running s' \/
  while_true model softmax multinomial itos fuel s = Finished s' ->
  P s'.
Proof.
  intros Hstep. revert s. induction fuel as [|fuel IH]; intros s Hs; cbn [while_true].
  - intros [[= <-]|?]; done.
  - destruct (loop_body model softmax multinomial itos s) as [[s1|s1]|e] eqn:E.
    + apply IH. eapply Hstep; eauto.
    + intros [?|[= <-]]; [done|]. eapply Hstep; eauto.
    + by intros [?|?].
Qed.

End Loop.

Section Sampling.
Context {R G : Type} (R0 : R) (Radd Rmul Rmax : R -> R -> R).
Context (softmax : tensor R -> tensor R)
        (multinomial : tensor R -> G -> Z * G).

(** The loop starts from the literal context [0, 0, 0].  With a network
    built for contexts of another length (and embeddings of dimension at
    least 1, at least one code), the first call of the model raises a shape
    error and the loop fails in its first iteration. *)
Theorem sampling_needs_ctx_len_3 (V D C : nat) (iv : @initial_values R)
    (itos : gmap Z ascii) (fuel : nat) (g : G) :
  C <> 3%nat -> (1 <= D)%nat -> (1 <= V)%nat ->
  generate (forward R0 Radd Rmul Rmax (init V D C iv)) softmax multinomial itos
    (S fuel) g = Failed RuntimeError.
Proof.
  intros HC HD HV. unfold generate. cbn [while_true]. unfold loop_body. cbn [ctx].
  change (unsqueeze0 (torch_tensor1 [0; 0; 0])) with (batch 3 [[0; 0; 0]]).
  rewrite forward_wrong_width; [done | lia | done | done |].
  repeat constructor; lia.
Qed.

(** With a network built for contexts of length 3 and at least V codes (the
    notebook's own has 27), every state the loop reaches holds a context of
    three codes of [0, V-1], and the model accepts it: the call the next
    iteration starts with returns one row of [vocab_size] logits.  Nothing
    is asked of the draws: a drawn code enters the context only after
    [itos] has decoded it. *)
Theorem sampling_context_fits_model (words : list string) (Vm D : nat)
    (iv : @initial_values R) (fuel : nat) (g : G) (s : @state G) :
  size (build words) <= Z.of_nat Vm ->
  generate (forward R0 Radd Rmul Rmax (init Vm D 3 iv)) softmax multinomial
    (itos (build words)) fuel g = Running s \/
  generate (forward R0 Radd Rmul Rmax (init Vm D 3 iv)) softmax multinomial
    (itos (build words)) fuel g = Finished s ->
  length (ctx s) = 3%nat /\
  Forall (fun i => 0 <= i < size (build words)) (ctx s) /\
  forward R0 Radd Rmul Rmax (init Vm D 3 iv) (unsqueeze0 (torch_tensor1 (ctx s))) =
    Ok (Tensor [1%nat; Vm] (logits_of R0 Radd Rmul Rmax Vm D 3 iv (ctx s))).
Proof.
  intros HV Hrun. unfold generate in Hrun.
  apply (while_true_invariant _ softmax multinomial (itos (build words))
           (fun s => length (ctx s) = 3%nat /\
                     Forall (fun i => 0 <= i < size (build words)) (ctx s)))
    in Hrun.
  - destruct Hrun as [Hlen Hr]. split; [done|]. split; [done|].
    apply forward_one_context; [done|].
    eapply Forall_impl; [exact Hr|]. intros i Hi. simpl in Hi. lia.
  - intros s1 s2 [Hlen Hr] Hstep.
    assert (Hs2 : exists idx char,
      itos (build words) !! idx = Some char /\ ctx s2 = drop 1 (ctx s1) ++ [idx]).
    { destruct Hstep as [Hstep|Hstep];
        apply loop_body_state in Hstep as (idx & char & g' & Hc & Hs);
        exists idx, char; (split; [done|]); case_decide; by simplify_eq. }
    destruct Hs2 as (idx & char & Hc & ->). split.
    + by rewrite length_app, length_drop, Hlen.
    + apply Forall_app. split; [by apply Forall_drop|].
      constructor; [|constructor].
      apply decode_defined_iff. exists char. unfold decode. by apply getitem_Ok.
  - cbn [ctx]. split; [done|].
    pose proof (size_build words). repeat constructor; lia.
Qed.

End Sampling.

Section Tracking.
Context {R G : Type}.
Context (model : tensor Z -> result (tensor R))
        (softmax : tensor R -> tensor R)
        (multinomial : tensor R -> G -> Z * G).

(** Over the vocabulary of a corpus without the boundary symbol, the
    context the loop holds is always the last three codes of the name
    generated so far, after three leading zeros: the very context the
    example builder, with a context length of 3, pairs with the character
    that follows such a prefix. *)
Theorem sampling_context_tracks_name (words : list string) (fuel : nat) (g : G)
    (s : @state G) :
  boundary_free words ->
  generate model softmax multinomial (itos (build words)) fuel g = Running s \/
  generate model softmax multinomial (itos (build words)) fuel g = Finished s ->
  exists codes,
    Forall2 (fun ch i => encode (build words) ch = Ok i)
      (list_ascii_of_string (gen_name s)) codes /\
    ctx s = last_window [0; 0; 0] codes /\
    (forall t, windows [0; 0; 0] (codes ++ [t]) !! length codes = Some (ctx s)).
Proof.
  intros Hbf Hrun. unfold generate in Hrun.
  apply (while_true_invariant model softmax multinomial (itos (build words))
           (fun s => exists codes,
              Forall2 (fun ch i => encode (build words) ch = Ok i)
                (list_ascii_of_string (gen_name s)) codes /\
              ctx s = last_window [0; 0; 0] codes /\
              (forall t, windows [0; 0; 0] (codes ++ [t]) !! length codes = Some (ctx s))))
    in Hrun; [done | |].
  - intros s1 s2 (codes & HF & Hctx & _) Hstep.
    assert (Hs2 : exists idx char,
      itos (build words) !! idx = Some char /\
      ctx s2 = drop 1 (ctx s1) ++ [idx] /\
      gen_name s2 = gen_name s1 +:+ String char EmptyString).
    { destruct Hstep as [Hstep|Hstep];
        apply loop_body_state in Hstep as (idx & char & g' & Hc & Hs);
        exists idx, char; (split; [done|]); case_decide; by simplify_eq. }
    destruct Hs2 as (idx & char & Hc & Hctx2 & Hname2).
    exists (codes ++ [idx]).
    assert (E : ctx s2 = last_window [0; 0; 0] (codes ++ [idx])).
    { by rewrite last_window_snoc, Hctx2, Hctx. }
    split; [|split; [done|]].
    + rewrite Hname2, list_ascii_of_string_app. apply Forall2_app; [done|].
      constructor; [|constructor]. unfold encode. apply getitem_Ok.
      by apply itos_stoi.
    + intros t. rewrite E. apply windows_snoc_last.
  - exists []. split; [constructor|]. split; [done|]. intros t. done.
Qed.

(** Every character of a generated name is the boundary symbol or a
    character of the corpus the vocabulary was built from. *)
Theorem sampling_uses_corpus_alphabet (words : list string) (fuel : nat) (g : G)
    (s : @state G) :
  generate model softmax multinomial (itos (build words)) fuel g = Running s \/
  generate model softmax multinomial (itos (build words)) fuel g = Finished s ->
  Forall (fun c => c = boundary \/ c ∈ join words) (list_ascii_of_string (gen_name s)).
Proof.
  intros Hrun. unfold generate in Hrun.
  apply (while_true_invariant model softmax multinomial (itos (build words))
           (fun s => Forall (fun c => c = boundary \/ c ∈ join words)
                       (list_ascii_of_string (gen_name s)))) in Hrun; [done | |].
  - intros s1 s2 HF Hstep.
    assert (Hs2 : exists idx char,
      itos (build words) !! idx = Some char /\
      gen_name s2 = gen_name s1 +:+ String char EmptyString).
    { destruct Hstep as [Hstep|Hstep];
        apply loop_body_state in Hstep as (idx & char & g' & Hc & Hs);
        exists idx, char; (split; [done|]); case_decide; by simplify_eq. }
    destruct Hs2 as (idx & char & Hc & ->).
    rewrite list_ascii_of_string_app. apply Forall_app. split; [done|].
    constructor; [|constructor].
    rewrite itos_lookup in Hc. case_decide; [left; congruence|].
    case_decide; [|done]. right. apply elem_of_chars. by eapply list_elem_of_lookup_2.
  - constructor.
Qed.

End Tracking.

Lemma sampling_needs_ctx_len_3_witness :
  2%nat <> 3%nat /\ (1 <= 2)%nat /\ (1 <= 3)%nat /\
  generate (forward 0 Z.add Z.mul Z.max (init 3 2 2 int_values)) no_softmax scripted
    (itos (build corpus3)) (S 5) [1; 0] = Failed RuntimeError.
Proof.
  assert (H1 : 2%nat <> 3%nat) by lia.
  assert (H2 : (1 <= 2)%nat) by lia.
  assert (H3 : (1 <= 3)%nat) by lia.
  split; [exact H1|]. split; [exact H2|]. split; [exact H3|].
  exact (sampling_needs_ctx_len_3 0 Z.add Z.mul Z.max no_softmax scripted 3 2 2 int_values
           (itos (build corpus3)) 5 [1; 0] H1 H2 H3).
Defined.

Lemma sampling_context_fits_model_witness :
  size (build corpus3) <= Z.of_nat 27 /\
  (generate (forward 0 Z.add Z.mul Z.max (init 27 2 3 int_values)) no_softmax scripted
     (itos (build corpus3)) 2 [1; 2; 1; 0] =
     Running {| ctx := [0; 1; 2]; gen_name := "ab"; rng := [1; 0] |} \/
   generate (forward 0 Z.add Z.mul Z.max (init 27 2 3 int_values)) no_softmax scripted
     (itos (build corpus3)) 2 [1; 2; 1; 0] =
     Finished {| ctx := [0; 1; 2]; gen_name := "ab"; rng := [1; 0] |}) /\
  length [0; 1; 2] = 3%nat /\
  Forall (fun i => 0 <= i < size (build corpus3)) [0; 1; 2] /\
  forward 0 Z.add Z.mul Z.max (init 27 2 3 int_values)
    (unsqueeze0 (torch_tensor1 [0; 1; 2])) =
    Ok (Tensor [1%nat; 27%nat] (logits_of 0 Z.add Z.mul Z.max 27 2 3 int_values [0; 1; 2])).
Proof.
  assert (H1 : size (build corpus3) <= Z.of_nat 27) by (by vm_compute).
  assert (H2 : generate (forward 0 Z.add Z.mul Z.max (init 27 2 3 int_values)) no_softmax
                 scripted (itos (build corpus3)) 2 [1; 2; 1; 0] =
                 Running {| ctx := [0; 1; 2]; gen_name := "ab"; rng := [1; 0] |} \/
               generate (forward 0 Z.add Z.mul Z.max (init 27 2 3 int_values)) no_softmax
                 scripted (itos (build corpus3)) 2 [1; 2; 1; 0] =
                 Finished {| ctx := [0; 1; 2]; gen_name := "ab"; rng := [1; 0] |}).
  { left. by vm_compute. }
  split; [exact H1|]. split; [exact H2|].
  exact (sampling_context_fits_model 0 Z.add Z.mul Z.max no_softmax scripted corpus3 27 2
           int_values 2 [1; 2; 1; 0] _ H1 H2).
Defined.

Lemma sampling_context_tracks_name_witness :
  boundary_free corpus3 /\
  (generate any_model no_softmax scripted (itos (build corpus3)) 2 [1; 2; 1; 0] =
     Running {| ctx := [0; 1; 2]; gen_name := "ab"; rng := [1; 0] |} \/
   generate any_model no_softmax scripted (itos (build corpus3)) 2 [1; 2; 1; 0] =
     Finished {| ctx := [0; 1; 2]; gen_name := "ab"; rng := [1; 0] |}) /\
  exists codes,
    Forall2 (fun ch i => encode (build corpus3) ch = Ok i)
      (list_ascii_of_string "ab") codes /\
    [0; 1; 2] = last_window [0; 0; 0] codes /\
    (forall t, windows [0; 0; 0] (codes ++ [t]) !! length codes = Some [0; 1; 2]).
Proof.
  assert (H1 : boundary_free corpus3).
  { unfold boundary_free. apply (bool_decide_unpack _). by vm_compute. }
  assert (H2 : generate any_model no_softmax scripted (itos (build corpus3)) 2 [1; 2; 1; 0] =
                 Running {| ctx := [0; 1; 2]; gen_name := "ab"; rng := [1; 0] |} \/
               generate any_model no_softmax scripted (itos (build corpus3)) 2 [1; 2; 1; 0] =
                 Finished {| ctx := [0; 1; 2]; gen_name := "ab"; rng := [1; 0] |}).
  { left. by vm_compute. }
  split; [exact H1|]. split; [exact H2|].
  exact (sampling_context_tracks_name any_model no_softmax scripted corpus3 2 [1; 2; 1; 0]
           _ H1 H2).
Defined.

Lemma sampling_uses_corpus_alphabet_witness :
  (generate any_model no_softmax scripted (itos (build corpus3)) 5 [2; 1; 0] =
     Running {| ctx := [2; 1; 0]; gen_name := "ba."; rng := [] |} \/
   generate any_model no_softmax scripted (itos (build corpus3)) 5 [2; 1; 0] =
     Finished {| ctx := [2; 1; 0]; gen_name := "ba."; rng := [] |}) /\
  Forall (fun c => c = boundary \/ c ∈ join corpus3) (list_ascii_of_string "ba.").
Proof.
  assert (H : generate any_model no_softmax scripted (itos (build corpus3)) 5 [2; 1; 0] =
                Running {| ctx := [2; 1; 0]; gen_name := "ba."; rng := [] |} \/
              generate any_model no_softmax scripted (itos (build corpus3)) 5 [2; 1; 0] =
                Finished {| ctx := [2; 1; 0]; gen_name := "ba."; rng := [] |}).
  { right. by vm_compute. }
  split; [exact H|].
  exact (sampling_uses_corpus_alphabet any_model no_softmax scripted corpus3 5 [2; 1; 0] _ H).
Defined.

End SamplerMore.

(** ** More on the trainer *)

Module TrainerMore.
Import MLPLM Trainer TrainerFacts Inputs More.

Section Fit.
Context {params grads moments Xt Yt logits loss_t : Type}.
Context (model : params -> Xt -> result logits)
        (loss_fn : logits -> Yt -> loss_t)
        (gradient : params -> Xt -> Yt -> grads)
        (accumulate : grads -> grads -> grads)
        (update : moments -> params -> grads -> moments * params).

#[local] Abbreviation train_state := (@train_state params grads moments).
#[local] Abbreviation fit_state := (@fit_state params grads moments loss_t).
#[local] Abbreviation epoch_body := (epoch_body model loss_fn gradient accumulate update).
#[local] Abbreviation fit := (fit model loss_fn gradient accumulate update).

Lemma epoch_body_model_Raise (X : Xt) (Y : Yt) (epochs epoch : Z) (s : fit_state) (e : exn) :
  model (parameters (objects s)) X = Raise e -> epoch_body X Y epochs s epoch = Raise e.
Proof. intros Hm. unfold Trainer.epoch_body. by rewrite Hm. Qed.

(** The call of the model is the first thing an epoch does.  When the
    model refuses [X] with the parameters the call starts from, a call for
    one epoch or more raises the model's exception, before any loss is
    recorded and before the progress test (so also for 1 to 9 epochs, where
    that test would divide by zero); a call for no epoch never reaches the
    model and returns the empty history with every object untouched. *)
Theorem fit_model_refuses (s : train_state) (X : Xt) (Y : Yt) (epochs : Z) (e : exn) :
  model (parameters s) X = Raise e ->
  fit s X Y epochs =
    if decide (1 <= epochs) then Raise e
    else Ok {| objects := s; train_loss := []; printed := [] |}.
Proof.
  intros Hm. unfold Trainer.fit. case_decide as HE.
  - rewrite seqZ_cons by lia. cbn [for_each].
    by rewrite (epoch_body_model_Raise X Y epochs 0 _ e).
  - unfold seqZ. by replace (Z.to_nat epochs) with 0%nat by lia.
Qed.

Lemma epoch_body_exact (X : Xt) (Y : Yt) (epochs epoch : Z) (s : fit_state) (out : logits) :
  10 <= epochs ->
  model (parameters (objects s)) X = Ok out ->
  epoch_body X Y epochs s epoch =
  Ok {| objects := step update (backward gradient accumulate X Y (zero_grad (objects s)));
        train_loss := train_loss s ++ [loss_fn out Y];
        printed := if decide (reported epochs epoch)
                   then printed s ++ [(epoch, loss_fn out Y)] else printed s |}.
Proof.
  intros HE Hm. unfold Trainer.epoch_body. rewrite Hm. cbn [mbind result_bind].
  unfold py_mod. rewrite decide_False.
  - cbn [mbind result_bind]. unfold reported. by repeat case_decide.
  - assert (1 <= epochs / 10); [|lia]. apply Z.div_le_lower_bound; lia.
Qed.

Lemma report_prefix (X : Xt) (Y : Yt) (epochs : Z) (s : train_state) (n : nat) :
  10 <= epochs ->
  (forall p, exists out, model p X = Ok out) ->
  exists fs,
    for_each (epoch_body X Y epochs)
      {| objects := s; train_loss := []; printed := [] |} (seqZ 0 (Z.of_nat n)) = Ok fs /\
    length (train_loss fs) = n /\
    (printed fs).*1 = filter (reported epochs) (seqZ 0 (Z.of_nat n)) /\
    Forall (fun kl => 0 <= kl.1 < Z.of_nat n /\
                      train_loss fs !! Z.to_nat kl.1 = Some kl.2) (printed fs).
Proof.
  intros HE Hm. induction n as [|n (fs & Hrun & Hlen & Hfst & Hall)].
  - eexists. split; [done|]. split; [done|]. split; [done|]. constructor.
  - rewrite seqZ_S, for_each_app, Hrun. cbn [mbind result_bind for_each].
    destruct (Hm (parameters (objects fs))) as [out Hout].
    rewrite (epoch_body_exact X Y epochs (0 + Z.of_nat n) fs out HE Hout).
    cbn [mbind result_bind]. eexists. split; [done|]. cbn [train_loss printed].
    split; [rewrite length_app, Hlen; simpl; lia|].
    assert (Hold : Forall (fun kl => 0 <= kl.1 < Z.of_nat (S n) /\
                     (train_loss fs ++ [loss_fn out Y]) !! Z.to_nat kl.1 = Some kl.2)
                     (printed fs)).
    { eapply Forall_impl; [exact Hall|]. intros kl [Hk Hl]. split; [lia|].
      rewrite lookup_app_l by lia. done. }
    rewrite filter_app, filter_cons, filter_nil.
    case_decide.
    + split.
      * by rewrite fmap_app, Hfst.
      * apply Forall_app. split; [done|]. constructor; [|constructor]. cbn [fst snd].
        split; [lia|]. rewrite lookup_app_r by lia.
        by replace (Z.to_nat (0 + Z.of_nat n) - length (train_loss fs))%nat with 0%nat by lia.
    + split; [by rewrite app_nil_r | done].
Qed.

(** From 10 epochs on the progress report lists, in order, epoch 0, every
    epoch that is a multiple of [epochs // 10], and the last epoch, each
    with the loss recorded for it in the history. *)
Theorem fit_progress_report (s : train_state) (X : Xt) (Y : Yt) (epochs : Z) :
  10 <= epochs ->
  (forall p, exists out, model p X = Ok out) ->
  exists fs,
    fit s X Y epochs = Ok fs /\
    (printed fs).*1 =
      filter (fun k => k mod (epochs / 10) = 0 \/ k = epochs - 1) (seqZ 0 epochs) /\
    Forall (fun kl => train_loss fs !! Z.to_nat kl.1 = Some kl.2) (printed fs) /\
    (exists l0, head (printed fs) = Some (0, l0)) /\
    (exists l1, last (printed fs) = Some (epochs - 1, l1)).
Proof.
  intros HE Hm.
  destruct (report_prefix X Y epochs s (Z.to_nat epochs) HE Hm)
    as (fs & Hrun & Hlen & Hfst & Hall).
  rewrite Z2Nat.id in Hrun, Hfst by lia.
  exists fs. split; [done|]. split; [done|].
  split; [eapply Forall_impl; [exact Hall|]; by intros kl [_ ?]|].
  split.
  - rewrite seqZ_cons in Hfst by lia. rewrite filter_cons in Hfst.
    rewrite decide_True in Hfst by (left; apply Zmod_0_l).
    destruct (printed fs) as [|[k l] rest]; [done|]. simpl in Hfst.
    injection Hfst as -> _. by eexists.
  - pose proof (seqZ_S 0 (Z.to_nat (epochs - 1))) as Es.
    replace (Z.of_nat (S (Z.to_nat (epochs - 1)))) with epochs in Es by lia.
    replace (0 + Z.of_nat (Z.to_nat (epochs - 1))) with (epochs - 1) in Es by lia.
    rewrite Es, filter_app, filter_cons, filter_nil in Hfst.
    rewrite decide_True in Hfst by (by right).
    destruct (printed fs) as [|kl rest _] using rev_ind.
    + by destruct (filter _ _).
    + rewrite fmap_app in Hfst. apply app_inj_2 in Hfst as [_ Hl]; [|done].
      destruct kl as [k l]. simpl in Hl. injection Hl as ->.
      rewrite last_snoc. by exists l.
Qed.

End Fit.

Lemma fit_model_refuses_witness :
  forward 0 Z.add Z.mul Z.max (init 27 2 2 int_values)
    (unsqueeze0 (torch_tensor1 [0; 0; 0])) = Raise RuntimeError /\
  fit (forward 0 Z.add Z.mul Z.max) toy_loss_of toy_no_gradient toy_accumulate toy_keep
    {| parameters := init 27 2 2 int_values; grad := None; optim := tt |}
    (unsqueeze0 (torch_tensor1 [0; 0; 0])) [0] 5 = Raise RuntimeError.
Proof.
  assert (H : forward 0 Z.add Z.mul Z.max
                (parameters {| parameters := init 27 2 2 int_values; grad := None (A := unit);
                               optim := tt |})
                (unsqueeze0 (torch_tensor1 [0; 0; 0])) = Raise RuntimeError).
  { by vm_compute. }
  split; [exact H|].
  exact (fit_model_refuses (forward 0 Z.add Z.mul Z.max) toy_loss_of toy_no_gradient
           toy_accumulate toy_keep _ (unsqueeze0 (torch_tensor1 [0; 0; 0])) [0] 5
           RuntimeError H).
Defined.

Lemma fit_progress_report_witness :
  10 <= 25 /\
  (forall p, exists out, toy_model p 1 = Ok out) /\
  exists fs,
    fit toy_model toy_loss toy_gradient Z.add toy_update toy_start 1 0 25 = Ok fs /\
    (printed fs).*1 =
      filter (fun k => k mod (25 / 10) = 0 \/ k = 25 - 1) (seqZ 0 25) /\
    Forall (fun kl => train_loss fs !! Z.to_nat kl.1 = Some kl.2) (printed fs) /\
    (exists l0, head (printed fs) = Some (0, l0)) /\
    (exists l1, last (printed fs) = Some (25 - 1, l1)).
Proof.
  assert (H1 : 10 <= 25) by lia.
  assert (H2 : forall p, exists out, toy_model p 1 = Ok out).
  { intros p. eexists. reflexivity. }
  split; [exact H1|]. split; [exact H2|].
  exact (fit_progress_report toy_model toy_loss toy_gradient Z.add toy_update
           toy_start 1 0 25 H1 H2).
Defined.

(** Twenty-five epochs: [25 // 10] is 2, so the even epochs are reported,
    the last one among them. *)
Example fit_toy_report :
  exists fs,
    fit toy_model toy_loss toy_gradient Z.add toy_update toy_start 1 0 25 = Ok fs /\
    (printed fs).*1 = [0; 2; 4; 6; 8; 10; 12; 14; 16; 18; 20; 22; 24].
Proof. eexists. split; by vm_compute. Qed.

End TrainerMore.

(** ** Reading the corpus *)

Module CorpusFacts.
Import Vocab Corpus ExamplesFacts.

Lemma string_app_assoc (a b c : string) : (a +:+ b) +:+ c = a +:+ (b +:+ c).
Proof.
  induction a as [|x a IH]; [done|].
  change ((String x a +:+ b) +:+ c) with (String x ((a +:+ b) +:+ c)).
  change (String x a +:+ (b +:+ c)) with (String x (a +:+ (b +:+ c))). by rewrite IH.
Qed.

Lemma string_app_nil_r (a : string) : a +:+ EmptyString = a.
Proof.
  induction a as [|x a IH]; [done|].
  change (String x a +:+ EmptyString) with (String x (a +:+ EmptyString)). by rewrite IH.
Qed.

Lemma one_line_app (a b : string) : one_line a -> one_line b -> one_line (a +:+ b).
Proof.
  unfold one_line. rewrite list_ascii_of_string_app. intros. by apply Forall_app.
Qed.

Lemma LF_boundary : is_line_boundary LF = true.
Proof. by vm_compute. Qed.

Lemma one_line_snoc (cur : string) (c : ascii) :
  one_line cur -> is_line_boundary c = false -> one_line (cur +:+ String c EmptyString).
Proof.
  intros Hcur Hc. apply one_line_app; [done|]. unfold one_line. simpl.
  constructor; [done | constructor].
Qed.

(** Every line produced has no line boundary in it, given that the line
    being read has none. *)
Lemma splitlines_from_one_line (n : nat) (cur text : string) :
  (String.length text <= n)%nat -> one_line cur ->
  Forall one_line (splitlines_from cur text).
Proof.
  revert cur text. induction n as [|n IH]; intros cur text Hn Hcur.
  - destruct text; simpl in Hn; [|lia]. cbn [splitlines_from].
    destruct cur; [constructor | constructor; [done | constructor]].
  - destruct text as [|c rest]; cbn [splitlines_from].
    + destruct cur; [constructor | constructor; [done | constructor]].
    + simpl in Hn. destruct (is_line_boundary c) eqn:E.
      * constructor; [done|]. destruct rest as [|c' rest'].
        -- constructor.
        -- simpl in Hn. case_decide; apply IH; simpl; try lia; constructor.
      * apply IH; [lia|]. by apply one_line_snoc.
Qed.

(** A name without line boundaries followed by a line feed is split off as
    one line. *)
Lemma splitlines_from_name (cur name rest : string) :
  one_line name ->
  splitlines_from cur (name +:+ String LF rest) =
  (cur +:+ name) :: splitlines_from EmptyString rest.
Proof.
  revert cur. induction name as [|c name IH]; intros cur Hname.
  - change (EmptyString +:+ String LF rest) with (String LF rest).
    cbn [splitlines_from]. rewrite LF_boundary, string_app_nil_r.
    f_equal. destruct rest as [|c' rest']; [done|].
    rewrite decide_False; [done|]. intros [Hc _]. vm_compute in Hc. discriminate.
  - change (String c name +:+ String LF rest) with (String c (name +:+ String LF rest)).
    unfold one_line in Hname. simpl in Hname. apply Forall_cons in Hname as [Hc Hname].
    cbn [splitlines_from]. rewrite Hc. rewrite IH by done.
    by rewrite string_app_assoc.
Qed.

Lemma splitlines_from_last (cur last : string) :
  one_line last ->
  splitlines_from cur last =
  match cur +:+ last with
  | EmptyString => []
  | line => [line]
  end.
Proof.
  revert cur. induction last as [|c last IH]; intros cur Hlast.
  - rewrite string_app_nil_r. cbn [splitlines_from]. by destruct cur.
  - unfold one_line in Hlast. simpl in Hlast. apply Forall_cons in Hlast as [Hc Hlast].
    cbn [splitlines_from]. rewrite Hc, IH by done.
    by rewrite string_app_assoc.
Qed.

End CorpusFacts.

Module CorpusTheorems.
Import Vocab Corpus CorpusFacts ExamplesFacts Inputs.

(** No line that [splitlines] returns contains a line boundary: no name
    read from the file has a line feed or a carriage return in it. *)
Theorem splitlines_one_line (text : string) : Forall one_line (splitlines text).
Proof.
  unfold splitlines. apply (splitlines_from_one_line (String.length text)); [lia|].
  constructor.
Qed.

(** Reading back a file written one name per line gives the names: when
    no name contains a line boundary, the text made of every name followed
    by a line feed, then possibly a last line without one, splits into
    those names, then that last line if it is not empty. *)
Theorem splitlines_file_of (names : list string) (last : string) :
  Forall one_line names -> one_line last ->
  splitlines (file_of names +:+ last) =
  names ++ match last with
           | EmptyString => []
           | line => [line]
           end.
Proof.
  intros Hnames Hlast. unfold splitlines.
  induction Hnames as [|name names Hname _ IH]; cbn [file_of].
  - change (EmptyString +:+ last) with last. rewrite splitlines_from_last by done.
    change (EmptyString +:+ last) with last. by destruct last.
  - rewrite string_app_assoc.
    change (String LF (file_of names) +:+ last) with (String LF (file_of names +:+ last)).
    rewrite splitlines_from_name by done. by rewrite IH.
Qed.

Lemma splitlines_file_of_witness :
  Forall one_line ["emma"; EmptyString; "olivia"] /\ one_line "ava" /\
  splitlines (file_of ["emma"; EmptyString; "olivia"] +:+ "ava") =
  ["emma"; EmptyString; "olivia"] ++ ["ava"].
Proof.
  assert (H1 : Forall one_line ["emma"; EmptyString; "olivia"]).
  { repeat constructor. }
  assert (H2 : one_line "ava") by repeat constructor.
  split; [exact H1|]. split; [exact H2|].
  exact (splitlines_file_of ["emma"; EmptyString; "olivia"] "ava" H1 H2).
Defined.

(** Carriage return followed by line feed ends one line, not two; two
    carriage returns end two; a text that ends in a boundary has no empty
    last line. *)
Example splitlines_crlf :
  splitlines ("ab" +:+ String CR (String LF ("cd" +:+ String CR (String CR
                ("x" +:+ String LF EmptyString))))) =
  ["ab"; "cd"; EmptyString; "x"].
Proof. by vm_compute. Qed.

End CorpusTheorems.
